(** * Ore & Economic Geology AI: a model of [index.tsx]

    The React component [App] of [index.tsx] is embedded as state passing
    over a record of its [useState] cells.  Handlers are functions on that
    record; the asynchronous [runAnalysis] is cut at its [await] points
    into a start function and two resumptions, scheduled by an event
    machine that also records what the browser and the generative
    backend are asked to do. *)

From Stdlib Require Import List String Ascii Bool Arith Lia.
Import ListNotations.
Open Scope string_scope.

Set Implicit Arguments.

(* ================================================================= *)
(** ** JavaScript strings *)

(** Strings are byte strings (UTF-8).  [nl] and [dq] are the line feed
    and the double quote of the template literals. *)
Definition nl : string := String (ascii_of_nat 10) EmptyString.
Definition dq : string := String (ascii_of_nat 34) EmptyString.

(** [s.startsWith(p)]. *)
Definition startsWith (s p : string) : bool := prefix p s.

(** Suffix of [s] from position [n] on. *)
Fixpoint drop (n : nat) (s : string) : string :=
  match n, s with
  | O, _ => s
  | S _, EmptyString => EmptyString
  | S n', String _ s' => drop n' s'
  end.

(** [s.endsWith(p)]. *)
Definition endsWith (s p : string) : bool :=
  Nat.leb (length p) (length s) && (drop (length s - length p) s =? p).

(** [s.includes(q)]. *)
Fixpoint includes (s q : string) : bool :=
  prefix q s ||
  match s with
  | EmptyString => false
  | String _ s' => includes s' q
  end.

(** One character of [toLowerCase]: the letters A to Z go to a to z,
    every other byte is kept. *)
Definition lower_ascii (c : ascii) : ascii :=
  let n := nat_of_ascii c in
  if Nat.leb 65 n && Nat.leb n 90 then ascii_of_nat (n + 32) else c.

(** [s.toLowerCase()].  The case mapping is that of the ASCII letters;
    the bytes of multi-byte characters are kept, which is what
    JavaScript does on the caseless script of the Urdu tables.  Cased
    letters outside ASCII, which no label of the page contains, are
    outside this model. *)
Fixpoint toLowerCase (s : string) : string :=
  match s with
  | EmptyString => EmptyString
  | String c s' => String (lower_ascii c) (toLowerCase s')
  end.

(** [s.split(sep)] for a one-character separator, with the piece under
    construction carried in [acc]. *)
Fixpoint split_acc (sep : ascii) (acc s : string) : list string :=
  match s with
  | EmptyString => [acc]
  | String c s' =>
      if Ascii.eqb c sep then acc :: split_acc sep EmptyString s'
      else split_acc sep (acc ++ String c EmptyString) s'
  end.

Definition split (sep : ascii) (s : string) : list string :=
  split_acc sep EmptyString s.

(** [s || d]: the empty string is falsy. *)
Definition or_else (s d : string) : string :=
  match s with
  | EmptyString => d
  | _ => s
  end.

(** Truthiness of an optional string argument: [undefined] and the
    empty string are falsy. *)
Definition truthy (o : option string) : bool :=
  match o with
  | None => false
  | Some EmptyString => false
  | Some _ => true
  end.

(* ================================================================= *)
(** ** Types and constants *)

Inductive Language := en | ur.

Record DataInputs := mkInputs {
  field : string;
  handSpecimen : string;
  microscopy : string;
  geochemistry : string;
  remoteSensing : string
}.

(** [keyof DataInputs]. *)
Inductive Key := Kfield | KhandSpecimen | Kmicroscopy | Kgeochemistry | KremoteSensing.

Definition Key_eqb (a b : Key) : bool :=
  match a, b with
  | Kfield, Kfield | KhandSpecimen, KhandSpecimen | Kmicroscopy, Kmicroscopy
  | Kgeochemistry, Kgeochemistry | KremoteSensing, KremoteSensing => true
  | _, _ => false
  end.

Module File.
(** A [File] as the program sees it: its name, its declared mime type,
    and what a [FileReader] delivers for it.  [None] stands for a read
    that ends in the [error] event. *)
Record t := mk {
  name : string;
  type : string;
  readAsText : option string;
  readAsDataURL : option string
}.
End File.

Inductive AttachmentType := image | pdf | text | other.

(** Object URLs handed out by [URL.createObjectURL] are numbered. *)
Definition ObjectURL := nat.

Module Attachment.
Record t := mk {
  id : string;
  file : File.t;
  previewUrl : option ObjectURL;
  type : AttachmentType
}.
End Attachment.

(** [Record<keyof DataInputs, Attachment[]>] as a JavaScript object: the
    own properties in creation order. *)
Definition AttachmentsMap := list (Key * list Attachment.t).

Definition INITIAL_INPUTS : DataInputs := mkInputs "" "" "" "" "".

Definition INITIAL_ATTACHMENTS : AttachmentsMap :=
  [ (Kfield, []); (KhandSpecimen, []); (Kmicroscopy, []);
    (Kgeochemistry, []); (KremoteSensing, []) ].

(** [obj[k]]; [None] is [undefined]. *)
Fixpoint obj_get (k : Key) (o : AttachmentsMap) : option (list Attachment.t) :=
  match o with
  | [] => None
  | (k', v) :: o' => if Key_eqb k k' then Some v else obj_get k o'
  end.

(** [{...o, [k]: v}]: a property that exists keeps its place, a new one
    goes last. *)
Fixpoint obj_set (k : Key) (v : list Attachment.t) (o : AttachmentsMap) : AttachmentsMap :=
  match o with
  | [] => [(k, v)]
  | (k', v') :: o' =>
      if Key_eqb k k' then (k', v) :: o' else (k', v') :: obj_set k v o'
  end.

(** [Object.values(o)]. *)
Definition Object_values (o : AttachmentsMap) : list (list Attachment.t) :=
  map snd o.

Definition Object_keys (o : AttachmentsMap) : list Key := map fst o.

(* ================================================================= *)
(** ** Translations and configuration *)

Module Labels.
(** The entries of a [LABELS] table that the logic reads; the others
    are only rendered. *)
Record t := mk {
  field : string;
  handSpecimen : string;
  microscopy : string;
  geochem : string;
  remote : string;
  results : string;
  heatmap : string;
  module1 : string;
  module2 : string;
  module3 : string;
  module4 : string;
  module5 : string;
  module6 : string
}.
End Labels.

Definition LABELS (l : Language) : Labels.t :=
  match l with
  | en => Labels.mk
      "Field & Outcrop"
      "Hand Specimen"
      "Microscopy (Thin Section)"
      "Geochemistry"
      "Satellite / Remote Sensing"
      "Analysis Results"
      "Heat Map Logic"
      "1. Geological Context"
      "2. Structural Intelligence"
      "3. Ore Petrography"
      "4. Geochemical Intelligence"
      "5. Spectral AI"
      "6. Heat-Map Fusion"
  | ur => Labels.mk
      "فیلڈ اور آؤٹ کراپ"
      "ہینڈ اسپیسیمین"
      "مائیکروسکوپی (تھین سیکشن)"
      "جیو کیمسٹری"
      "سیٹلائٹ / ریموٹ سینسنگ"
      "تجزیاتی نتائج"
      "ہیٹ میپ لاجک"
      "1. ارضیاتی سیاق و سباق"
      "2. ساختی ذہانت"
      "3. Ore Petrography"
      "4. جیو کیمیکل ذہانت"
      "5. Spectral AI"
      "6. Heat-Map Fusion"
  end.

Module Descriptions.
Record t := mk {
  module1 : string;
  module2 : string;
  module3 : string;
  module4 : string;
  module5 : string;
  module6 : string
}.
End Descriptions.

Definition MODULE_DESCRIPTIONS (l : Language) : Descriptions.t :=
  match l with
  | en => Descriptions.mk
      "Analyzes tectonic setting and lithology to identify permissive mineral systems."
      "Evaluates faults and veins to determine fluid pathway probabilities."
      "Interprets ore textures and mineral stages to build a paragenetic model."
      "Detects elemental anomalies and pathfinder clusters from geochemical data."
      "Uses spectral data to map alteration zones (clays, iron oxides)."
      "Combines all data layers to rank prospectivity targets (High/Med/Low)."
  | ur => Descriptions.mk
      "معدنی نظام کی شناخت کے لیے ٹیکٹونک اور چٹانی ساخت کا تجزیہ کرتا ہے۔"
      "فلوئیڈ کے راستوں کے لیے فالٹس اور رگوں کا جائزہ لیتا ہے۔"
      "Ore کی ساخت اور معدنی مراحل کا ماڈل بناتا ہے۔"
      "جیو کیمیکل ڈیٹا سے عناصر کی بے قاعدگیوں کی نشاندہی کرتا ہے۔"
      "Alteration زونز کے نقشے بنانے کے لیے اسپیکٹرل ڈیٹا استعمال کرتا ہے۔"
      "تمام ڈیٹا کو ملا کر تلاش کے اہداف کی درجہ بندی کرتا ہے۔"
  end.

(* ================================================================= *)
(** ** API logic *)

Definition systemInstructionEn : string :=
  nl
  ++ "You are a Senior Economic Geologist and AI-assisted Mineral Exploration Expert, specialized in ore deposits, mineral systems, structural controls, geochemistry, ore microscopy, and satellite-based exploration. You operate at research, academic, and industry exploration standards." ++ nl
  ++ nl
  ++ "Your Tasks:" ++ nl
  ++ "1. Classify the deposit (Porphyry, Epithermal, VMS, Skarn, IOCG, Orogenic Gold, etc.) with explicit justification and confidence level." ++ nl
  ++ "2. Analyze Mineralization Patterns (Structural vs lithological control, Zonation)." ++ nl
  ++ "3. Suggest Heat-Map Classifications (Ore cores, Alteration halos)." ++ nl
  ++ "4. Build a Genetic Model (Metal source, fluid evolution, PT conditions)." ++ nl
  ++ "5. Provide Exploration Targets." ++ nl
  ++ nl
  ++ "Output Format:" ++ nl
  ++ "1. Ore Deposit Type + Confidence %" ++ nl
  ++ "2. Diagnostic Evidence (Field -> Lab -> Satellite)" ++ nl
  ++ "3. Mineral Assemblage & Paragenesis" ++ nl
  ++ "4. Heat Map Interpretation" ++ nl
  ++ "5. Genetic Model" ++ nl
  ++ "6. Exploration Targets & Recommendations" ++ nl.

Definition systemInstructionUr : string :=
  nl
  ++ "آپ ایک سینئر اکنامک جیولوجسٹ اور AI پر مبنی معدنی تلاش کے ماہر ہیں، جنہیں ore deposits، معدنی نظام، ساختی کنٹرول، جیوا کیمسٹری، ore microscopy اور سیٹلائٹ ڈیٹا میں مہارت حاصل ہے۔ آپ تحقیقی، تعلیمی اور انڈسٹری معیار پر کام کرتے ہیں۔" ++ nl
  ++ nl
  ++ "آپ کے فرائض:" ++ nl
  ++ "1. ore deposit کی قسم کی شناخت کریں (Porphyry، Epithermal، VMS، Skarn وغیرہ) اور اعتماد کی سطح بیان کریں۔" ++ nl
  ++ "2. Mineralization Pattern کا تجزیہ کریں (ساختی یا lithological کنٹرول)۔" ++ nl
  ++ "3. Heat-Map کی درجہ بندی تجویز کریں (ore cores, alteration halos)۔" ++ nl
  ++ "4. Genetic Model بنائیں (دھات کے ماخذ، فلوئیڈ ارتقاء، درجہ حرارت و دباؤ)۔" ++ nl
  ++ "5. تلاش کے اہداف (Exploration Targets) فراہم کریں۔" ++ nl
  ++ nl
  ++ "آؤٹ پٹ فارمیٹ:" ++ nl
  ++ "1. Ore Deposit Type + Confidence %" ++ nl
  ++ "2. Diagnostic Evidence (Field -> Lab -> Satellite)" ++ nl
  ++ "3. Mineral Assemblage & Paragenesis" ++ nl
  ++ "4. Heat Map Interpretation" ++ nl
  ++ "5. Genetic Model" ++ nl
  ++ "6. Exploration Targets & Recommendations" ++ nl
  ++ nl
  ++ "جواب اردو میں دیں۔ تکنیکی اصطلاحات انگریزی میں بھی لکھ سکتے ہیں۔" ++ nl.

Module Part.
(** A request part: [{ text }] or [{ inlineData: { data, mimeType } }].
    [data] is optional because it is read at index 1 of an array. *)
Inductive t :=
| text (s : string)
| inlineData (data : option string) (mimeType : string).
End Part.

(** [fileToGenerativePart]: the value the promise resolves to, [None]
    when it is rejected.  On a failed read the reader fires [error]
    before [loadend], so [reject] settles the promise and [onloadend]
    cannot settle it again: after a failed text read its [resolve] has
    no effect, and after a failed data URL read it raises a TypeError on
    the [null] result before it reaches [resolve].  That exception is
    raised in the reader's event handler, outside the promise and
    outside every state updater; it changes no state and is not part of
    this value. *)
Definition fileToGenerativePart (file : File.t) : option Part.t :=
  if startsWith (File.type file) "text/"
     || endsWith (File.name file) ".csv"
     || endsWith (File.name file) ".json"
     || endsWith (File.name file) ".md"
  then
    match File.readAsText file with
    | Some result =>
        Some (Part.text (nl ++ "[File Attachment: " ++ File.name file ++ "]" ++ nl
                            ++ result ++ nl))
    | None => None
    end
  else
    match File.readAsDataURL file with
    | Some result =>
        Some (Part.inlineData (nth_error (split "," result) 1) (File.type file))
    | None => None
    end.

(* ================================================================= *)
(** ** The state of [App] *)

Inductive Tab := TabInputs | TabResults | TabHeatmap.

Definition Tab_eqb (a b : Tab) : bool :=
  match a, b with
  | TabInputs, TabInputs | TabResults, TabResults | TabHeatmap, TabHeatmap => true
  | _, _ => false
  end.

(** The seven [useState] cells. *)
Record AppState := mkApp {
  language : Language;
  inputs : DataInputs;
  attachments : AttachmentsMap;
  loading : bool;
  result : string;
  activeTab : Tab;
  searchQuery : string
}.

Definition setLanguage (v : Language) (s : AppState) : AppState :=
  mkApp v (inputs s) (attachments s) (loading s) (result s) (activeTab s) (searchQuery s).
Definition setInputs (v : DataInputs) (s : AppState) : AppState :=
  mkApp (language s) v (attachments s) (loading s) (result s) (activeTab s) (searchQuery s).
Definition setAttachments (v : AttachmentsMap) (s : AppState) : AppState :=
  mkApp (language s) (inputs s) v (loading s) (result s) (activeTab s) (searchQuery s).
Definition setLoading (v : bool) (s : AppState) : AppState :=
  mkApp (language s) (inputs s) (attachments s) v (result s) (activeTab s) (searchQuery s).
Definition setResult (v : string) (s : AppState) : AppState :=
  mkApp (language s) (inputs s) (attachments s) (loading s) v (activeTab s) (searchQuery s).
Definition setActiveTab (v : Tab) (s : AppState) : AppState :=
  mkApp (language s) (inputs s) (attachments s) (loading s) (result s) v (searchQuery s).
Definition setSearchQuery (v : string) (s : AppState) : AppState :=
  mkApp (language s) (inputs s) (attachments s) (loading s) (result s) (activeTab s) v.

Definition initialApp : AppState :=
  mkApp en INITIAL_INPUTS INITIAL_ATTACHMENTS false "" TabInputs "".

(** The browser's object URL store: how many URLs [createObjectURL] has
    handed out, and the URLs passed to [revokeObjectURL], latest first. *)
Record Browser := mkBrowser {
  created : nat;
  revoked : list ObjectURL
}.

Definition createObjectURL (b : Browser) : ObjectURL * Browser :=
  (created b, mkBrowser (S (created b)) (revoked b)).

Definition revokeObjectURL (u : ObjectURL) (b : Browser) : Browser :=
  mkBrowser (created b) (u :: revoked b).

(* ================================================================= *)
(** ** Handlers of the input store *)

(** [{ ...prev, [field]: value }] on [DataInputs]. *)
Definition handleInputChange (k : Key) (value : string) (s : AppState) : AppState :=
  let prev := inputs s in
  setInputs
    match k with
    | Kfield => mkInputs value (handSpecimen prev) (microscopy prev) (geochemistry prev) (remoteSensing prev)
    | KhandSpecimen => mkInputs (field prev) value (microscopy prev) (geochemistry prev) (remoteSensing prev)
    | Kmicroscopy => mkInputs (field prev) (handSpecimen prev) value (geochemistry prev) (remoteSensing prev)
    | Kgeochemistry => mkInputs (field prev) (handSpecimen prev) (microscopy prev) value (remoteSensing prev)
    | KremoteSensing => mkInputs (field prev) (handSpecimen prev) (microscopy prev) (geochemistry prev) value
    end s.

(** The [map] callback of [handleAddAttachment] over [Array.from(files)].
    [rnd i] is the id drawn from [Math.random] for the file at index [i]. *)
Fixpoint newAttachments (rnd : nat -> string) (i : nat) (files : list File.t)
    (b : Browser) : list Attachment.t * Browser :=
  match files with
  | [] => ([], b)
  | file :: rest =>
      let '(url, b1) :=
        if startsWith (File.type file) "image/"
        then let '(u, b') := createObjectURL b in (Some u, b')
        else (None, b) in
      let att :=
        Attachment.mk (rnd i) file url
          (if startsWith (File.type file) "image/" then image
           else if File.type file =? "application/pdf" then pdf
           else text) in
      let '(atts, b2) := newAttachments rnd (S i) rest b1 in
      (att :: atts, b2)
  end.

(** [handleAddAttachment].  The outer [None] is a [TypeError] of the
    updater, raised when [prev[field]] is [undefined]. *)
Definition handleAddAttachment (k : Key) (files : option (list File.t))
    (rnd : nat -> string) (s : AppState) (b : Browser) : option (AppState * Browser) :=
  match files with
  | None => Some (s, b)
  | Some fl =>
      let '(new, b') := newAttachments rnd 0 fl b in
      let prev := attachments s in
      match obj_get k prev with
      | Some old => Some (setAttachments (obj_set k (old ++ new) prev) s, b')
      | None => None
      end
  end.

(** [handleRemoveAttachment], with the same reading of [None]. *)
Definition handleRemoveAttachment (k : Key) (id : string) (s : AppState) : option AppState :=
  let prev := attachments s in
  match obj_get k prev with
  | Some old =>
      Some (setAttachments
              (obj_set k (filter (fun att => negb (Attachment.id att =? id)) old) prev) s)
  | None => None
  end.

Definition clearInputs (s : AppState) : AppState :=
  setResult "" (setAttachments INITIAL_ATTACHMENTS (setInputs INITIAL_INPUTS s)).

(* ================================================================= *)
(** ** Prompt construction in [runAnalysis] *)

Definition inputSummary (tLabels : Labels.t) (inputs : DataInputs) : string :=
  nl
  ++ "--- INPUT DATA ---" ++ nl
  ++ Labels.field tLabels ++ ": " ++ or_else (field inputs) "N/A" ++ nl
  ++ Labels.handSpecimen tLabels ++ ": " ++ or_else (handSpecimen inputs) "N/A" ++ nl
  ++ Labels.microscopy tLabels ++ ": " ++ or_else (microscopy inputs) "N/A" ++ nl
  ++ Labels.geochem tLabels ++ ": " ++ or_else (geochemistry inputs) "N/A" ++ nl
  ++ Labels.remote tLabels ++ ": " ++ or_else (remoteSensing inputs) "N/A" ++ nl.

(** The template literal of the heat map branch of [runAnalysis]. *)
Definition heatmapPromptText (inputs : DataInputs) : string :=
  "Generate a comprehensive Python script using pandas, numpy, and matplotlib/seaborn to create a geochemical heat map." ++ nl
  ++ "         " ++ nl
  ++ "         CRITICAL REQUIREMENT: The script must include clear, easily editable variables at the very top for FILE PATHS." ++ nl
  ++ "         " ++ nl
  ++ "         Structure the script code as follows:" ++ nl
  ++ "         1. CONFIGURATION SECTION (Top of script):" ++ nl
  ++ "            - Define variable `DATA_FILE_PATH = " ++ dq ++ "path/to/your/data.csv" ++ dq ++ "` (Comment: User must replace this)" ++ nl
  ++ "            - Define variable `OUTPUT_IMAGE_PATH = " ++ dq ++ "path/to/your/output_heatmap.png" ++ dq ++ "` (Comment: User must replace this)" ++ nl
  ++ "            - Define variable `COORDINATE_COLS = ['X', 'Y']` (or similar placeholder)" ++ nl
  ++ "            - Define variable `ELEMENT_COLS` based on the deposit type inferred from inputs." ++ nl
  ++ nl
  ++ "         2. LOGIC:" ++ nl
  ++ "            - Load data from `DATA_FILE_PATH`." ++ nl
  ++ "            - Normalize element values (e.g., MinMaxScaler)." ++ nl
  ++ "            - Weight elements based on the deposit model inferred from: "
  ++ field inputs ++ " " ++ geochemistry inputs
  ++ nl
  ++ "            - Calculate a Composite Heat Index." ++ nl
  ++ "            - Generate the visualization (e.g. Scatter or Interpolated Map)." ++ nl
  ++ "            - Save the plot to `OUTPUT_IMAGE_PATH`." ++ nl
  ++ nl
  ++ "         3. INSTRUCTIONS:" ++ nl
  ++ "             - Briefly explain how the user should change the paths." ++ nl
  ++ nl
  ++ "         Output ONLY the Python code and the instructions." ++ nl
  ++ "         ".

(** [specificModule === 'Generate Python Code']. *)
Definition isGeneratePythonCode (specificModule : option string) : bool :=
  match specificModule with
  | Some m => m =? "Generate Python Code"
  | None => false
  end.

(** The three-way conditional that assigns [mainPromptText], with its
    branches in the order of the source. *)
Definition mainPromptText (language : Language) (inputs : DataInputs)
    (activeTab : Tab) (specificModule : option string) : string :=
  let tLabels := LABELS language in
  if truthy specificModule then
    "Run specific module analysis: "
    ++ match specificModule with Some m => m | None => EmptyString end
    ++ "." ++ nl ++ inputSummary tLabels inputs
  else if Tab_eqb activeTab TabHeatmap && isGeneratePythonCode specificModule then
    heatmapPromptText inputs
  else
    "Perform a full Economic Geology Analysis based on the provided multi-scale data."
    ++ nl ++ inputSummary tLabels inputs.

(** [(Object.values(attachments) as Attachment[][]).flat()]. *)
Definition allAttachments (attachments : AttachmentsMap) : list Attachment.t :=
  List.concat (Object_values attachments).

(** The message of the [catch] block. *)
Definition errorMessage (language : Language) : string :=
  match language with
  | en => "Error generating analysis. Please check console."
  | ur => "تجزیہ کرنے میں خرابی۔ براہ کرم کنسول چیک کریں۔"
  end.

(** The argument of [ai.models.generateContent]; the temperature is the
    decimal literal of the source, in tenths. *)
Record Request := mkRequest {
  model : string;
  parts : list Part.t;
  systemInstruction : string;
  temperatureTenths : nat
}.

Definition modelId : string := "gemini-3-pro-preview".

(* ================================================================= *)
(** ** The event machine *)

(** A suspended call of [runAnalysis]: the variables of its closure that
    the rest of the body reads.  With [pending = att :: _] the call
    awaits the read of [att]; with [pending = []] it awaits the backend. *)
Record Task := mkTask {
  tid : nat;
  t_language : Language;
  t_parts : list Part.t;
  t_pending : list Attachment.t
}.

Record World := mkWorld {
  app : AppState;
  browser : Browser;
  apiKey : bool;                      (* is [process.env.API_KEY] truthy *)
  alerts : nat;                       (* calls of [alert] *)
  tasks : list Task;                  (* suspended calls of [runAnalysis] *)
  nextTask : nat;
  calls : list (nat * Request)        (* calls of [generateContent], oldest first, by task *)
}.

Definition withApp (a : AppState) (w : World) : World :=
  mkWorld a (browser w) (apiKey w) (alerts w) (tasks w) (nextTask w) (calls w).

Definition initialWorld (key : bool) : World :=
  mkWorld initialApp (mkBrowser 0 []) key 0 [] 0 [].

(** What [generateContent] may do: reject, or resolve to a response
    whose [text] may be [undefined]. *)
Inductive BackendOutcome :=
| Rejected
| Responded (text : option string).

(** The argument of the call of [generateContent] that ends the [try]
    block of a suspended call. *)
Definition requestOf (t : Task) : Request :=
  let systemInstruction :=
    match t_language t with en => systemInstructionEn | ur => systemInstructionUr end in
  mkRequest modelId (t_parts t) systemInstruction 4.

(** Run a call of [runAnalysis] up to its next [await]: with files left
    it has started the read of the first one, without it has left the
    loop and called [generateContent]. *)
Definition suspend (t : Task) (w : World) : World :=
  match t_pending t with
  | [] =>
      mkWorld (app w) (browser w) (apiKey w) (alerts w) (tasks w ++ [t]) (nextTask w)
        (calls w ++ [(tid t, requestOf t)])
  | _ :: _ =>
      mkWorld (app w) (browser w) (apiKey w) (alerts w) (tasks w ++ [t]) (nextTask w) (calls w)
  end.

(** [runAnalysis(specificModule)] from its call to its first [await]. *)
Definition runAnalysis (specificModule : option string) (w : World) : World :=
  if negb (apiKey w) then
    mkWorld (app w) (browser w) (apiKey w) (S (alerts w)) (tasks w) (nextTask w) (calls w)
  else
    let s := app w in
    let s' := setResult "" (setActiveTab TabResults (setLoading true s)) in
    let prompt := mainPromptText (language s) (inputs s) (activeTab s) specificModule in
    let t := mkTask (nextTask w) (language s) [Part.text prompt]
               (allAttachments (attachments s)) in
    suspend t
      (mkWorld s' (browser w) (apiKey w) (alerts w) (tasks w) (S (nextTask w)) (calls w)).

Definition findTask (i : nat) (ts : list Task) : option Task :=
  find (fun t => tid t =? i)%nat ts.

Definition dropTask (i : nat) (w : World) : World :=
  mkWorld (app w) (browser w) (apiKey w) (alerts w)
    (filter (fun t => negb (tid t =? i)%nat) (tasks w)) (nextTask w) (calls w).

(** The [catch] and [finally] blocks. *)
Definition failTask (t : Task) (w : World) : World :=
  withApp (setLoading false (setResult (errorMessage (t_language t)) (app w)))
    (dropTask (tid t) w).

(** The read awaited by task [i] ends: the part is pushed and the loop
    goes on, or the rejection is caught. *)
Definition resumeRead (i : nat) (w : World) : World :=
  match findTask i (tasks w) with
  | Some t =>
      match t_pending t with
      | att :: rest =>
          match fileToGenerativePart (Attachment.file att) with
          | Some part =>
              suspend (mkTask (tid t) (t_language t) (t_parts t ++ [part]) rest)
                (dropTask i w)
          | None => failTask t w
          end
      | [] => w
      end
  | None => w
  end.

(** The call of [generateContent] awaited by task [i] settles. *)
Definition resumeBackend (i : nat) (o : BackendOutcome) (w : World) : World :=
  match findTask i (tasks w) with
  | Some t =>
      match t_pending t with
      | [] =>
          match o with
          | Responded response_text =>
              let text :=
                or_else (match response_text with Some s => s | None => EmptyString end)
                  "No analysis generated." in
              withApp (setLoading false (setResult text (app w))) (dropTask i w)
          | Rejected => failTask t w
          end
      | _ :: _ => w
      end
  | None => w
  end.

(* ================================================================= *)
(** ** Filtering logic of the sidebar *)

Module ModuleItem.
Record t := mk {
  label : string;
  description : string
}.
End ModuleItem.

Module ToolItem.
Record t := mk {
  label : string;
  icon : string;
  tab : Tab
}.
End ToolItem.

Definition dataInputLabel (language : Language) : string :=
  match language with
  | en => "Multi-Scale Data"
  | ur => "ڈیٹا ان پٹ"
  end.

(** The test shared by the three filters:
    [label.toLowerCase().includes(searchQuery.toLowerCase())]. *)
Definition matchesQuery (searchQuery label : string) : bool :=
  includes (toLowerCase label) (toLowerCase searchQuery).

Definition showDataInput (language : Language) (searchQuery : string) : bool :=
  matchesQuery searchQuery (dataInputLabel language).

Definition moduleList (language : Language) : list ModuleItem.t :=
  let t := LABELS language in
  let d := MODULE_DESCRIPTIONS language in
  [ ModuleItem.mk (Labels.module1 t) (Descriptions.module1 d);
    ModuleItem.mk (Labels.module2 t) (Descriptions.module2 d);
    ModuleItem.mk (Labels.module3 t) (Descriptions.module3 d);
    ModuleItem.mk (Labels.module4 t) (Descriptions.module4 d);
    ModuleItem.mk (Labels.module5 t) (Descriptions.module5 d);
    ModuleItem.mk (Labels.module6 t) (Descriptions.module6 d) ].

Definition filteredModules (language : Language) (searchQuery : string) : list ModuleItem.t :=
  filter (fun m => matchesQuery searchQuery (ModuleItem.label m)) (moduleList language).

Definition toolList (language : Language) : list ToolItem.t :=
  let t := LABELS language in
  [ ToolItem.mk (Labels.heatmap t) "fa-map-location-dot" TabHeatmap;
    ToolItem.mk (Labels.results t) "fa-scroll" TabResults ].

Definition filteredTools (language : Language) (searchQuery : string) : list ToolItem.t :=
  filter (fun tool => matchesQuery searchQuery (ToolItem.label tool)) (toolList language).

Definition hasAnyMatch (language : Language) (searchQuery : string) : bool :=
  showDataInput language searchQuery
  || Nat.ltb 0 (List.length (filteredModules language searchQuery))
  || Nat.ltb 0 (List.length (filteredTools language searchQuery)).

(* ================================================================= *)
(** ** Events *)

(** What the user can do with the rendered page, and what the
    environment does to a suspended [runAnalysis]. *)
Inductive Event :=
| LanguageClick
| SearchChange (q : string)
| DataInputClick
| ModuleClick (idx : nat)
| ToolClick (idx : nat)
| ClearClick
| TextChange (k : Key) (value : string)
| FilesChange (k : Key) (files : option (list File.t)) (rnd : nat -> string)
| RemoveClick (k : Key) (id : string)
| AnalyzeClick
| GoToInputsClick
| GeneratePythonClick
| ReadEnd (i : nat)
| BackendEnd (i : nat) (o : BackendOutcome).

(** A control answers only while the tab that renders it is active. *)
Definition onTab (tab : Tab) (w : World) (k : option World) : option World :=
  if Tab_eqb (activeTab (app w)) tab then k else Some w.

(** One event, as a change of the state of the page.  [None] is a
    TypeError raised by a state updater of the store ([prev[field]]
    undefined).  The exception that [onloadend] raises after a failed
    data URL read (see [fileToGenerativePart]) leaves the state as the
    rejection made it, so [ReadEnd] always has a next state. *)
Definition step (w : World) (e : Event) : option World :=
  let s := app w in
  match e with
  | LanguageClick =>
      Some (withApp (setLanguage (match language s with en => ur | ur => en end) s) w)
  | SearchChange q =>
      Some (withApp (setSearchQuery q s) w)
  | DataInputClick =>
      if showDataInput (language s) (searchQuery s)
      then Some (withApp (setActiveTab TabInputs s) w)
      else Some w
  | ModuleClick idx =>
      match nth_error (filteredModules (language s) (searchQuery s)) idx with
      | Some m => Some (runAnalysis (Some (ModuleItem.label m)) w)
      | None => Some w
      end
  | ToolClick idx =>
      match nth_error (filteredTools (language s) (searchQuery s)) idx with
      | Some tool => Some (withApp (setActiveTab (ToolItem.tab tool) s) w)
      | None => Some w
      end
  | ClearClick =>
      onTab TabInputs w (Some (withApp (clearInputs s) w))
  | TextChange k value =>
      onTab TabInputs w (Some (withApp (handleInputChange k value s) w))
  | FilesChange k files rnd =>
      onTab TabInputs w
        match handleAddAttachment k files rnd s (browser w) with
        | Some (s', b') =>
            Some (mkWorld s' b' (apiKey w) (alerts w) (tasks w) (nextTask w) (calls w))
        | None => None
        end
  | RemoveClick k id =>
      onTab TabInputs w
        match handleRemoveAttachment k id s with
        | Some s' => Some (withApp s' w)
        | None => None
        end
  | AnalyzeClick =>
      (* the button carries disabled={loading} *)
      onTab TabInputs w (if loading s then Some w else Some (runAnalysis None w))
  | GoToInputsClick =>
      onTab TabResults w
        (if negb (loading s) && (result s =? "")
         then Some (withApp (setActiveTab TabInputs s) w) else Some w)
  | GeneratePythonClick =>
      onTab TabHeatmap w (Some (runAnalysis (Some "Generate Python Code") w))
  | ReadEnd i => Some (resumeRead i w)
  | BackendEnd i o => Some (resumeBackend i o w)
  end.

Fixpoint exec (w : World) (evs : list Event) : option World :=
  match evs with
  | [] => Some w
  | e :: rest =>
      match step w e with
      | Some w' => exec w' rest
      | None => None
      end
  end.

(** The worlds the page can be in. *)
Inductive reachable : World -> Prop :=
| reachable_initial (key : bool) : reachable (initialWorld key)
| reachable_step (w w' : World) (e : Event) :
    reachable w -> step w e = Some w' -> reachable w'.

(* ================================================================= *)
(** ** Sample data *)

Definition isTextPart (p : Part.t) : bool :=
  match p with
  | Part.text _ => true
  | Part.inlineData _ _ => false
  end.

Definition sample_png : File.t :=
  File.mk "outcrop.png" "image/png" (Some "PNG")
    (Some "data:image/png;base64,iVBORw0KGgo=").

Definition sample_csv : File.t :=
  File.mk "assay.csv" "application/vnd.ms-excel" (Some "Cu,Au")
    (Some "data:application/vnd.ms-excel;base64,Q3UsQXU=").

Definition sample_pdf : File.t :=
  File.mk "report.pdf" "application/pdf" (Some "%PDF-")
    (Some "data:application/pdf;base64,JVBERi0=").

(** A text file whose mime type the browser could not tell. *)
Definition sample_txt : File.t :=
  File.mk "notes.txt" "" (Some "hello")
    (Some "data:application/octet-stream;base64,aGVsbG8=").

(** An image whose read ends in an error. *)
Definition sample_broken : File.t :=
  File.mk "broken.png" "image/png" None None.

Definition sample_rnd (i : nat) : string :=
  match i with
  | 0 => "k3j9x0a1b"
  | 1 => "q7w2e5r8t"
  | _ => "z0z0z0z0z"
  end.

(* ================================================================= *)
(** ** Vocabulary of the properties *)

(** The keys of [INITIAL_ATTACHMENTS], in the order of the literal. *)
Definition keyOrder : list Key :=
  [Kfield; KhandSpecimen; Kmicroscopy; Kgeochemistry; KremoteSensing].

(** The attachments of one category; no list when the key is absent. *)
Definition attachmentsOf (k : Key) (o : AttachmentsMap) : list Attachment.t :=
  match obj_get k o with
  | Some l => l
  | None => []
  end.

(** The sequential [for ... await] loop over the files that are left:
    the parts in loop order, [None] if one of the reads is rejected. *)
Fixpoint encodeAll (atts : list Attachment.t) : option (list Part.t) :=
  match atts with
  | [] => Some []
  | att :: rest =>
      match fileToGenerativePart (Attachment.file att) with
      | Some part =>
          match encodeAll rest with
          | Some ps => Some (part :: ps)
          | None => None
          end
      | None => None
      end
  end.

(** The [parts] array a suspended call ends with, if it gets that far. *)
Definition completion (t : Task) : option (list Part.t) :=
  match encodeAll (t_pending t) with
  | Some ps => Some (t_parts t ++ ps)%list
  | None => None
  end.

(** The call of [runAnalysis] numbered [i] is bound to the outcome
    [target]: whatever is suspended under that number completes to
    [target], and whatever it sent to the backend carried [target]. *)
Definition bound (i : nat) (target : option (list Part.t)) (w : World) : Prop :=
  i < nextTask w
  /\ (forall t, In t (tasks w) -> tid t = i -> completion t = target)
  /\ (forall r, In (i, r) (calls w) -> Some (parts r) = target).

(** An object URL is in use when some attachment of the store holds it. *)
Definition holds (u : ObjectURL) (att : Attachment.t) : bool :=
  match Attachment.previewUrl att with
  | Some v => Nat.eqb u v
  | None => false
  end.

Definition inUse (u : ObjectURL) (w : World) : bool :=
  existsb (holds u) (allAttachments (attachments (app w))).

(** How often [u] was passed to [URL.revokeObjectURL]. *)
Definition releases (u : ObjectURL) (w : World) : nat :=
  count_occ Nat.eq_dec (revoked (browser w)) u.

(** A preview handle belongs to an image attachment and was handed out
    by the browser. *)
Definition handleOk (n : nat) (att : Attachment.t) : Prop :=
  match Attachment.previewUrl att with
  | Some u => u < n /\ Attachment.type att = image
  | None => Attachment.type att <> image
  end.

(** The world after a run of events from the initial world with a key. *)
Definition worldAfter (evs : list Event) : World :=
  match exec (initialWorld true) evs with
  | Some w => w
  | None => initialWorld true
  end.

(** What [suspend] adds to the log of backend calls. *)
Definition sent (t : Task) : list (nat * Request) :=
  match t_pending t with
  | [] => [(tid t, requestOf t)]
  | _ :: _ => []
  end.

(** A store with an image under field and a table under geochemistry,
    added in the opposite order. *)
Definition sample_store : World :=
  worldAfter [ FilesChange Kgeochemistry (Some [sample_csv]) sample_rnd;
               FilesChange Kfield (Some [sample_png]) sample_rnd ].

(** A call of [runAnalysis] that awaits the read of an unreadable image. *)
Definition sample_reading : World :=
  worldAfter [ TextChange Kfield "andesite host rock with quartz veining";
               FilesChange Kfield (Some [sample_broken]) sample_rnd;
               AnalyzeClick ].

(** A call of [runAnalysis] in Urdu that awaits the backend. *)
Definition sample_calling : World :=
  worldAfter [ LanguageClick; AnalyzeClick ].

(** The inputs tab while a full analysis is loading. *)
Definition sample_loading : World :=
  worldAfter [ AnalyzeClick; DataInputClick ].

(** An image added under field and removed again. *)
Definition sample_removed : World :=
  worldAfter [ FilesChange Kfield (Some [sample_png]) sample_rnd;
               RemoveClick Kfield "k3j9x0a1b" ].

(** The heat map tab, with texts under field and geochemistry. *)
Definition sample_heatmap : World :=
  worldAfter [ TextChange Kfield "diorite porphyry";
               TextChange Kgeochemistry "Cu 0.4 %, Au 0.3 ppm";
               ToolClick 0 ].

(* ================================================================= *)
(** ** Shapes of a step and invariants *)

(** What a step does to the attachment store and to the browser. *)
Inductive store_change (w w' : World) : Prop :=
| store_same :
    attachments (app w') = attachments (app w) -> browser w' = browser w ->
    store_change w w'
| store_clear :
    attachments (app w') = INITIAL_ATTACHMENTS -> browser w' = browser w ->
    store_change w w'
| store_add k files rnd s' :
    handleAddAttachment k (Some files) rnd (app w) (browser w) = Some (s', browser w') ->
    attachments (app w') = attachments s' ->
    store_change w w'
| store_remove k id s' :
    handleRemoveAttachment k id (app w) = Some s' ->
    attachments (app w') = attachments s' -> browser w' = browser w ->
    store_change w w'.

(** What a step does to the suspended calls and to the backend log. *)
Inductive async_change (w w' : World) : Prop :=
| async_same :
    tasks w' = tasks w -> calls w' = calls w -> nextTask w' = nextTask w ->
    async_change w w'
| async_start (t : Task) :
    tid t = nextTask w ->
    nextTask w' = S (nextTask w) ->
    tasks w' = (tasks w ++ [t])%list ->
    calls w' = (calls w ++ sent t)%list ->
    async_change w w'
| async_continue (t : Task) (att : Attachment.t) (rest : list Attachment.t)
    (part : Part.t) :
    In t (tasks w) ->
    t_pending t = att :: rest ->
    fileToGenerativePart (Attachment.file att) = Some part ->
    let t' := mkTask (tid t) (t_language t) (t_parts t ++ [part]) rest in
    nextTask w' = nextTask w ->
    tasks w' = (filter (fun x => negb (tid x =? tid t)%nat) (tasks w) ++ [t'])%list ->
    calls w' = (calls w ++ sent t')%list ->
    async_change w w'
| async_finish (i : nat) :
    nextTask w' = nextTask w ->
    tasks w' = filter (fun x => negb (tid x =? i)%nat) (tasks w) ->
    calls w' = calls w ->
    async_change w w'.

(** The store keeps its five keys in order, no object URL is ever
    revoked, and the preview handles are those of the images. *)
Definition storeInv (w : World) : Prop :=
  Object_keys (attachments (app w)) = keyOrder
  /\ revoked (browser w) = []
  /\ forall att, In att (allAttachments (attachments (app w))) ->
                 handleOk (created (browser w)) att.

(** Task numbers and call numbers are below the counter, and a call
    that still reads files has sent nothing. *)
Definition taskInv (w : World) : Prop :=
  (forall t, In t (tasks w) -> tid t < nextTask w)
  /\ (forall i r, In (i, r) (calls w) -> i < nextTask w)
  /\ (forall t r, In t (tasks w) -> t_pending t <> [] -> ~ In (tid t, r) (calls w)).

(* ================================================================= *)
(** ** Tactics *)

(** Case analysis on the guards of a handler, then the equation. *)
Ltac step_cases H :=
  unfold step, onTab in H;
  repeat match type of H with
         | context [if ?c then _ else _] => destruct c
         | context [match ?c with _ => _ end] => destruct c eqn:?
         end;
  try discriminate; injection H as <-.

(** Name the recursive call of [newAttachments] and split its result,
    with the induction hypothesis [IH] taken at that call. *)
Ltac split_rest IH :=
  match goal with
  | |- context [newAttachments ?rnd ?i ?fs ?b] =>
      let N := fresh "N" in
      pose proof (IH i b) as N;
      destruct (newAttachments rnd i fs b); simpl in N |- *
  end.

(* ================================================================= *)
(** ** The paste handler of [InputCard] and further vocabulary *)

Module ClipboardItem.
(** A [DataTransferItem] of [e.clipboardData.items]: its type and what
    [getAsFile()] returns ([None] is [null]). *)
Record t := mk {
  type : string;
  getAsFile : option File.t
}.
End ClipboardItem.

(** The loop of [handlePaste]: the files of the items whose type
    contains the word image, in item order. *)
Fixpoint pastedFiles (items : list ClipboardItem.t) : list File.t :=
  match items with
  | [] => []
  | item :: rest =>
      if includes (ClipboardItem.type item) "image" then
        match ClipboardItem.getAsFile item with
        | Some blob => blob :: pastedFiles rest
        | None => pastedFiles rest
        end
      else pastedFiles rest
  end.

(** [handlePaste]: the file list it passes to [onAddAttachment], which
    [App] gives to every card; [None] when it does not call it. *)
Definition handlePaste (items : list ClipboardItem.t) : option (list File.t) :=
  let files := pastedFiles items in
  if Nat.ltb 0 (List.length files) then Some files else None.

(** A paste into the textarea of category [k]. *)
Definition paste (k : Key) (items : list ClipboardItem.t) (rnd : nat -> string)
    (w : World) : option World :=
  match handlePaste items with
  | Some files => step w (FilesChange k (Some files) rnd)
  | None => Some w
  end.

(** [inputs[k]]. *)
Definition getInput (k : Key) (d : DataInputs) : string :=
  match k with
  | Kfield => field d
  | KhandSpecimen => handSpecimen d
  | Kmicroscopy => microscopy d
  | Kgeochemistry => geochemistry d
  | KremoteSensing => remoteSensing d
  end.

(** The label of a category in the input summary. *)
Definition summaryLabel (k : Key) (t : Labels.t) : string :=
  match k with
  | Kfield => Labels.field t
  | KhandSpecimen => Labels.handSpecimen t
  | Kmicroscopy => Labels.microscopy t
  | Kgeochemistry => Labels.geochem t
  | KremoteSensing => Labels.remote t
  end.

(** The preview handles held by a list of attachments, in list order. *)
Fixpoint handlesOf (atts : list Attachment.t) : list ObjectURL :=
  match atts with
  | [] => []
  | att :: rest =>
      match Attachment.previewUrl att with
      | Some u => u :: handlesOf rest
      | None => handlesOf rest
      end
  end.

(** The number of files whose mime type starts with image/. *)
Definition imageCount (files : list File.t) : nat :=
  List.length (filter (fun f => startsWith (File.type f) "image/") files).

(** From [w] to [w'] by the event [e], no suspended call is lost
    unless [e] settles it, and the log of backend calls grew at its
    end. *)
Definition kept (w w' : World) (e : Event) : Prop :=
  (forall t, In t (tasks w) ->
     (exists t', In t' (tasks w') /\ tid t' = tid t)
     \/ e = ReadEnd (tid t)
     \/ exists o, e = BackendEnd (tid t) o)
  /\ exists more, calls w' = (calls w ++ more)%list.

(** Two attachments under field. *)
Definition sample_two : AppState :=
  setAttachments
    (obj_set Kfield
       [ Attachment.mk "k3j9x0a1b" sample_png (Some 0) image;
         Attachment.mk "q7w2e5r8t" sample_pdf None pdf ]
       INITIAL_ATTACHMENTS) initialApp.

(** A page without a key on which an analysis was asked for twice. *)
Definition sample_nokey : World :=
  match exec (initialWorld false)
          [ TextChange Kfield "gossan"; AnalyzeClick; ModuleClick 2 ] with
  | Some w => w
  | None => initialWorld false
  end.

(** A clipboard with one image between two text items. *)
Definition sample_clipboard : list ClipboardItem.t :=
  [ ClipboardItem.mk "text/plain" None;
    ClipboardItem.mk "image/png" (Some sample_png);
    ClipboardItem.mk "text/html" None ].

(* ================================================================= *)
(** ** Letter case, stated without [toLowerCase] *)

(** Two characters are the same letter when they have the same code, or
    when one is a capital among A to Z (codes 65 to 90) and the other
    is its small form, 32 codes further. *)
Definition sameLetter (c d : ascii) : Prop :=
  let m := nat_of_ascii c in
  let n := nat_of_ascii d in
  m = n
  \/ (65 <= m /\ m <= 90 /\ n = m + 32)
  \/ (65 <= n /\ n <= 90 /\ m = n + 32).

(** Two strings are the same text up to letter case: the same length,
    and the same letter at each place. *)
Fixpoint sameText (a b : string) : Prop :=
  match a, b with
  | EmptyString, EmptyString => True
  | String c a', String d b' => sameLetter c d /\ sameText a' b'
  | _, _ => False
  end.

(* ================================================================= *)
(** ** Facts about strings *)

Section StringFacts.

Lemma append_nil_r (s : string) : s ++ "" = s.
Proof. induction s as [|c s IH]; simpl; [reflexivity | now rewrite IH]. Qed.

Lemma append_assoc (a b c : string) : (a ++ b) ++ c = a ++ b ++ c.
Proof. induction a as [|x a IH]; simpl; [reflexivity | now rewrite IH]. Qed.

Lemma prefix_nil (s : string) : prefix "" s = true.
Proof. now destruct s. Qed.

Lemma prefix_iff (q s : string) :
  prefix q s = true <-> exists post, s = q ++ post.
Proof.
  revert s; induction q as [|c q IH]; intros s.
  - rewrite prefix_nil. split; [intros _; now exists s | reflexivity].
  - destruct s as [|d s]; simpl.
    + split; [discriminate | intros [post H]; discriminate].
    + destruct (ascii_dec c d) as [->|ne].
      * rewrite IH. split; intros [post H]; exists post.
        -- now rewrite H.
        -- now injection H.
      * split; [discriminate | intros [post H]; injection H; congruence].
Qed.

Lemma includes_nil (s : string) : includes s "" = true.
Proof. destruct s; reflexivity. Qed.

Lemma includes_iff (s q : string) :
  includes s q = true <-> exists pre post, s = pre ++ q ++ post.
Proof.
  induction s as [|c s IH]; cbn [includes]; rewrite orb_true_iff.
  - split.
    + intros [H|H]; [|discriminate].
      apply prefix_iff in H as [post H]. now exists "", post.
    + intros [pre [post H]]. left.
      destruct pre; [|discriminate].
      apply prefix_iff. now exists post.
  - rewrite IH, prefix_iff. split.
    + intros [[post H]|[pre [post H]]].
      * now exists "", post.
      * exists (String c pre), post. simpl. now rewrite H.
    + intros [pre [post H]]. destruct pre as [|d pre]; simpl in H.
      * left. now exists post.
      * right. exists pre, post. now injection H.
Qed.

Lemma lower_ascii_idem (c : ascii) : lower_ascii (lower_ascii c) = lower_ascii c.
Proof. destruct c as [[] [] [] [] [] [] [] []]; reflexivity. Qed.

Lemma toLowerCase_idem (s : string) : toLowerCase (toLowerCase s) = toLowerCase s.
Proof.
  induction s as [|c s IH]; simpl; [reflexivity|].
  now rewrite lower_ascii_idem, IH.
Qed.

(** Splitting at a separator that the accumulated piece and the head
    segment do not contain. *)
Lemma split_acc_plain (sep : ascii) (p acc : string) :
  includes p (String sep "") = false ->
  split_acc sep acc p = [acc ++ p].
Proof.
  revert acc; induction p as [|c p IH]; intros acc H; simpl.
  - now rewrite append_nil_r.
  - simpl in H. apply orb_false_iff in H as [H1 H2].
    destruct (Ascii.eqb_spec c sep) as [->|ne].
    + rewrite prefix_nil in H1.
      destruct (ascii_dec sep sep); [discriminate | congruence].
    + rewrite IH by assumption. now rewrite append_assoc.
Qed.

Lemma split_acc_head (sep : ascii) (h rest acc : string) :
  includes h (String sep "") = false ->
  split_acc sep acc (h ++ String sep rest) = (acc ++ h) :: split_acc sep "" rest.
Proof.
  revert acc; induction h as [|c h IH]; intros acc H; simpl.
  - rewrite Ascii.eqb_refl. now rewrite append_nil_r.
  - simpl in H. apply orb_false_iff in H as [H1 H2].
    destruct (Ascii.eqb_spec c sep) as [->|ne].
    + rewrite prefix_nil in H1.
      destruct (ascii_dec sep sep); [discriminate | congruence].
    + rewrite IH by assumption. now rewrite append_assoc.
Qed.

(** Index 1 of [url.split(',')] for a data URL [header,payload]. *)
Lemma split_data_url (header payload : string) :
  includes header "," = false ->
  includes payload "," = false ->
  nth_error (split "," (header ++ "," ++ payload)) 1 = Some payload.
Proof.
  intros Hh Hp. unfold split.
  change ("," ++ payload) with (String "," payload).
  rewrite split_acc_head by assumption.
  rewrite split_acc_plain by assumption.
  reflexivity.
Qed.

End StringFacts.

(* ================================================================= *)
(** ** The input store *)

Lemma obj_get_set_same (k : Key) (v old : list Attachment.t) (o : AttachmentsMap) :
  obj_get k o = Some old -> obj_get k (obj_set k v o) = Some v.
Proof.
  induction o as [|[k' v'] o IH]; simpl; [discriminate|].
  destruct (Key_eqb k k') eqn:E; simpl; rewrite E; auto.
Qed.

Lemma obj_set_keys (k : Key) (v old : list Attachment.t) (o : AttachmentsMap) :
  obj_get k o = Some old -> Object_keys (obj_set k v o) = Object_keys o.
Proof.
  induction o as [|[k' v'] o IH]; simpl; [discriminate|].
  destruct (Key_eqb k k') eqn:E; simpl; [reflexivity|].
  intros H. now rewrite IH.
Qed.

Lemma newAttachments_files (rnd : nat -> string) (files : list File.t) :
  forall i b, map Attachment.file (fst (newAttachments rnd i files b)) = files.
Proof.
  induction files as [|f fs IH]; intros i b; simpl; [reflexivity|].
  destruct (startsWith (File.type f) "image/"); simpl;
    split_rest IH; now rewrite N.
Qed.

Lemma newAttachments_kind (rnd : nat -> string) (files : list File.t) :
  forall i b att,
    In att (fst (newAttachments rnd i files b)) ->
    Attachment.type att =
      (if startsWith (File.type (Attachment.file att)) "image/" then image
       else if File.type (Attachment.file att) =? "application/pdf" then pdf
       else text).
Proof.
  induction files as [|f fs IH]; intros i b att; simpl; [tauto|].
  destruct (startsWith (File.type f) "image/") eqn:E; simpl;
    split_rest (fun i b => IH i b att);
    (intros [<-|H]; simpl; [now rewrite E | now apply N]).
Qed.

(** C9.  The records that [handleAddAttachment] creates for a non-null
    file list are appended, one per file and in file order, to the list
    of the category, and each is classified [image] when the mime type
    of its file starts with image/, [pdf] when it is application/pdf,
    and [text] otherwise; none is classified [other]. *)
Theorem handleAddAttachment_kinds (k : Key) (files : list File.t) (rnd : nat -> string)
    (s s' : AppState) (b b' : Browser) :
  handleAddAttachment k (Some files) rnd s b = Some (s', b') ->
  exists old new,
    obj_get k (attachments s) = Some old
    /\ obj_get k (attachments s') = Some (old ++ new)%list
    /\ map Attachment.file new = files
    /\ forall att, In att new ->
         let mime := File.type (Attachment.file att) in
         (startsWith mime "image/" = true -> Attachment.type att = image)
         /\ (startsWith mime "image/" = false -> mime = "application/pdf" ->
             Attachment.type att = pdf)
         /\ (startsWith mime "image/" = false -> mime <> "application/pdf" ->
             Attachment.type att = text)
         /\ Attachment.type att <> other.
Proof.
  unfold handleAddAttachment.
  destruct (newAttachments rnd 0 files b) as [new b1] eqn:N.
  destruct (obj_get k (attachments s)) as [old|] eqn:G; [|discriminate].
  intros H; injection H as <- <-.
  exists old, new. split; [reflexivity|]. split.
  - simpl. now apply obj_get_set_same with (old := old).
  - split.
    + pose proof (newAttachments_files rnd files 0 b) as F. now rewrite N in F.
    + intros att Hin.
      pose proof (newAttachments_kind rnd files 0 b att) as K.
      rewrite N in K. specialize (K Hin).
      set (mime := File.type (Attachment.file att)) in *.
      destruct (startsWith mime "image/") eqn:E.
      * repeat split; try discriminate; rewrite K; [reflexivity | discriminate].
      * destruct (String.eqb_spec mime "application/pdf") as [P|P].
        -- repeat split; try discriminate; try congruence; rewrite K; discriminate.
        -- repeat split; try discriminate; try congruence; rewrite K; discriminate.
Qed.

Lemma handleAddAttachment_kinds_witness :
  exists old new,
    obj_get Kfield (attachments initialApp) = Some old
    /\ obj_get Kfield
         (attachments
            (setAttachments
               (obj_set Kfield
                  (fst (newAttachments sample_rnd 0 [sample_png; sample_pdf; sample_txt]
                          (mkBrowser 0 [])))
                  INITIAL_ATTACHMENTS) initialApp)) = Some (old ++ new)%list
    /\ map Attachment.file new = [sample_png; sample_pdf; sample_txt]
    /\ forall att, In att new ->
         let mime := File.type (Attachment.file att) in
         (startsWith mime "image/" = true -> Attachment.type att = image)
         /\ (startsWith mime "image/" = false -> mime = "application/pdf" ->
             Attachment.type att = pdf)
         /\ (startsWith mime "image/" = false -> mime <> "application/pdf" ->
             Attachment.type att = text)
         /\ Attachment.type att <> other.
Proof.
  apply (@handleAddAttachment_kinds Kfield [sample_png; sample_pdf; sample_txt]
           sample_rnd initialApp _ (mkBrowser 0 []) (mkBrowser 1 [])).
  reflexivity.
Defined.

(** C10.  [clearInputs] puts the five texts back to the empty string,
    the five attachment lists back to the empty list and the held
    result back to the empty string; the active tab, the loading flag
    and the language (and the search query) are left as they were. *)
Theorem clearInputs_frame (s : AppState) :
  inputs (clearInputs s) = INITIAL_INPUTS
  /\ (field (inputs (clearInputs s)) = ""
      /\ handSpecimen (inputs (clearInputs s)) = ""
      /\ microscopy (inputs (clearInputs s)) = ""
      /\ geochemistry (inputs (clearInputs s)) = ""
      /\ remoteSensing (inputs (clearInputs s)) = "")
  /\ (forall k, obj_get k (attachments (clearInputs s)) = Some [])
  /\ allAttachments (attachments (clearInputs s)) = []
  /\ result (clearInputs s) = ""
  /\ activeTab (clearInputs s) = activeTab s
  /\ loading (clearInputs s) = loading s
  /\ language (clearInputs s) = language s
  /\ searchQuery (clearInputs s) = searchQuery s.
Proof.
  repeat split; try reflexivity.
  intros k; destruct k; reflexivity.
Qed.

(* ================================================================= *)
(** ** The attachment encoder *)

(** C7 as the specification words it fails on a file named notes.txt
    whose mime type is not known: the name ends in txt, yet the part is
    binary. *)
Lemma encode_txt_counterexample :
  ~ (forall (file : File.t) (p : Part.t),
       fileToGenerativePart file = Some p ->
       (isTextPart p = true <->
        startsWith (File.type file) "text/" = true
        \/ endsWith (File.name file) ".csv" = true
        \/ endsWith (File.name file) ".json" = true
        \/ endsWith (File.name file) ".md" = true
        \/ endsWith (File.name file) ".txt" = true)).
Proof.
  intros H.
  destruct (H sample_txt (Part.inlineData (Some "aGVsbG8=") "") eq_refl) as [_ H2].
  discriminate H2. repeat right. reflexivity.
Qed.

(** C7, amended.  A file is read as text exactly when its mime type
    starts with text/ or its name ends in .csv, .json or .md (a name in
    .txt alone does not count).  The text part is the decoded text
    between a marker line that names the file and a line feed; any other
    file gives a binary part with the mime type of the file and, as
    data, the payload after the comma of the data URL. *)
Theorem fileToGenerativePart_rule (file : File.t) (p : Part.t) :
  fileToGenerativePart file = Some p ->
  let textual :=
    startsWith (File.type file) "text/"
    || endsWith (File.name file) ".csv"
    || endsWith (File.name file) ".json"
    || endsWith (File.name file) ".md" in
  (isTextPart p = true <-> textual = true)
  /\ (textual = true ->
      exists decoded,
        File.readAsText file = Some decoded
        /\ p = Part.text (nl ++ "[File Attachment: " ++ File.name file ++ "]" ++ nl
                             ++ decoded ++ nl))
  /\ (textual = false ->
      exists url,
        File.readAsDataURL file = Some url
        /\ p = Part.inlineData (nth_error (split "," url) 1) (File.type file)
        /\ forall header payload,
             url = header ++ "," ++ payload ->
             includes header "," = false ->
             includes payload "," = false ->
             p = Part.inlineData (Some payload) (File.type file)).
Proof.
  unfold fileToGenerativePart; cbv zeta.
  destruct (startsWith (File.type file) "text/"
            || endsWith (File.name file) ".csv"
            || endsWith (File.name file) ".json"
            || endsWith (File.name file) ".md"); intros H.
  - destruct (File.readAsText file) as [decoded|]; [|discriminate].
    injection H as <-. split; [now split|]. split; [|discriminate].
    intros _. now exists decoded.
  - destruct (File.readAsDataURL file) as [url|]; [|discriminate].
    injection H as <-. split; [now split|]. split; [discriminate|].
    intros _. exists url. repeat split.
    intros header payload -> Hh Hp. f_equal. now apply split_data_url.
Qed.

Lemma fileToGenerativePart_rule_witness :
  (isTextPart (Part.text (nl ++ "[File Attachment: assay.csv]" ++ nl ++ "Cu,Au" ++ nl)) = true
   <-> startsWith (File.type sample_csv) "text/"
       || endsWith (File.name sample_csv) ".csv"
       || endsWith (File.name sample_csv) ".json"
       || endsWith (File.name sample_csv) ".md" = true)
  /\ fileToGenerativePart sample_csv
     = Some (Part.text (nl ++ "[File Attachment: assay.csv]" ++ nl ++ "Cu,Au" ++ nl)).
Proof.
  split.
  - apply (@fileToGenerativePart_rule sample_csv
             (Part.text (nl ++ "[File Attachment: assay.csv]" ++ nl ++ "Cu,Au" ++ nl))).
    reflexivity.
  - reflexivity.
Defined.

(* ================================================================= *)
(** ** The sidebar filter *)

Lemma filter_all (A : Type) (f : A -> bool) (l : list A) :
  (forall x, f x = true) -> filter f l = l.
Proof.
  intros H. induction l as [|x l IH]; simpl; [reflexivity|].
  now rewrite H, IH.
Qed.

Lemma matchesQuery_nil (label : string) : matchesQuery "" label = true.
Proof. unfold matchesQuery. simpl. apply includes_nil. Qed.

Lemma matchesQuery_iff (searchQuery label : string) :
  matchesQuery searchQuery label = true <->
  exists pre post, toLowerCase label = pre ++ toLowerCase searchQuery ++ post.
Proof. apply includes_iff. Qed.

Lemma lower_ascii_code (c : ascii) :
  nat_of_ascii (lower_ascii c)
  = if Nat.leb 65 (nat_of_ascii c) && Nat.leb (nat_of_ascii c) 90
    then nat_of_ascii c + 32 else nat_of_ascii c.
Proof.
  unfold lower_ascii.
  destruct (Nat.leb 65 (nat_of_ascii c) && Nat.leb (nat_of_ascii c) 90) eqn:U;
    [|reflexivity].
  apply andb_true_iff in U as [_ U]. apply Nat.leb_le in U.
  apply nat_ascii_embedding. lia.
Qed.

Lemma nat_of_ascii_inj (c d : ascii) : nat_of_ascii c = nat_of_ascii d -> c = d.
Proof.
  intros H. rewrite <- (ascii_nat_embedding c), <- (ascii_nat_embedding d).
  now rewrite H.
Qed.

(** [toLowerCase] sends two characters to the same one exactly when
    they are the same letter. *)
Lemma lower_ascii_sameLetter (c d : ascii) :
  lower_ascii c = lower_ascii d <-> sameLetter c d.
Proof.
  unfold sameLetter; cbv zeta. split.
  - intros H. apply (f_equal nat_of_ascii) in H.
    rewrite !lower_ascii_code in H.
    destruct (Nat.leb_spec 65 (nat_of_ascii c)), (Nat.leb_spec (nat_of_ascii c) 90),
      (Nat.leb_spec 65 (nat_of_ascii d)), (Nat.leb_spec (nat_of_ascii d) 90);
      simpl in H; lia.
  - intros H. apply nat_of_ascii_inj. rewrite !lower_ascii_code.
    destruct (Nat.leb_spec 65 (nat_of_ascii c)), (Nat.leb_spec (nat_of_ascii c) 90),
      (Nat.leb_spec 65 (nat_of_ascii d)), (Nat.leb_spec (nat_of_ascii d) 90);
      simpl; lia.
Qed.

Lemma toLowerCase_sameText (a : string) :
  forall b, toLowerCase a = toLowerCase b <-> sameText a b.
Proof.
  induction a as [|c a IH]; intros [|d b]; simpl; try (split; [discriminate | tauto]).
  - tauto.
  - rewrite <- IH, <- lower_ascii_sameLetter. split.
    + intros H. injection H as H1 H2. now split.
    + intros [-> ->]. reflexivity.
Qed.

Lemma toLowerCase_append (a b : string) :
  toLowerCase (a ++ b) = toLowerCase a ++ toLowerCase b.
Proof. induction a as [|c a IH]; simpl; [reflexivity | now rewrite IH]. Qed.

(** A lower-cased string cut in two is the lower-casing of a cut. *)
Lemma toLowerCase_cut (x : string) :
  forall s y,
    toLowerCase s = x ++ y ->
    exists s1 s2, s = s1 ++ s2 /\ toLowerCase s1 = x /\ toLowerCase s2 = y.
Proof.
  induction x as [|c x IH]; intros s y H.
  - exists "", s. now repeat split.
  - destruct s as [|d s]; [discriminate|]. simpl in H. injection H as H1 H2.
    destruct (IH s y H2) as (s1 & s2 & -> & E1 & E2).
    exists (String d s1), s2. simpl. now rewrite H1, E1.
Qed.

(** The test of the filters, read on the label itself: some stretch of
    the label is the query up to letter case. *)
Lemma matchesQuery_sameText (searchQuery label : string) :
  matchesQuery searchQuery label = true <->
  exists pre mid post, label = pre ++ mid ++ post /\ sameText mid searchQuery.
Proof.
  rewrite matchesQuery_iff. split.
  - intros (p & q & H).
    destruct (toLowerCase_cut p label _ H) as (pre & rest & -> & E1 & E2).
    destruct (toLowerCase_cut (toLowerCase searchQuery) rest _ E2)
      as (mid & post & -> & E3 & E4).
    exists pre, mid, post. split; [reflexivity|]. now apply toLowerCase_sameText.
  - intros (pre & mid & post & -> & H). apply toLowerCase_sameText in H.
    exists (toLowerCase pre), (toLowerCase post).
    now rewrite !toLowerCase_append, H.
Qed.

(** C8.  With the empty query the three filters keep everything, in the
    order of the catalog.  An entry is kept exactly when some stretch of
    its label is the query up to letter case, where letter case is
    stated on the characters themselves; in terms of the code, exactly
    when the lower-cased query occurs inside the lower-cased label, so
    that the letter case of the query and of the label does not matter.
    The query OrE keeps the module labelled 3. Ore Petrography in both
    languages and drops every other entry; a query that occurs in no
    label drops them all. *)
Theorem filter_by_label (language : Language) :
  (showDataInput language "" = true
   /\ filteredModules language "" = moduleList language
   /\ filteredTools language "" = toolList language)
  /\ (forall q,
        (showDataInput language q = true <->
         exists pre post,
           toLowerCase (dataInputLabel language) = pre ++ toLowerCase q ++ post)
        /\ (forall m,
              In m (filteredModules language q) <->
              In m (moduleList language)
              /\ exists pre post,
                   toLowerCase (ModuleItem.label m) = pre ++ toLowerCase q ++ post)
        /\ (forall tool,
              In tool (filteredTools language q) <->
              In tool (toolList language)
              /\ exists pre post,
                   toLowerCase (ToolItem.label tool) = pre ++ toLowerCase q ++ post))
  /\ (forall q label,
        matchesQuery (toLowerCase q) label = matchesQuery q label
        /\ matchesQuery q (toLowerCase label) = matchesQuery q label)
  /\ (exists description,
        In (ModuleItem.mk "3. Ore Petrography" description)
           (filteredModules language "OrE"))
  /\ (forall q,
        (showDataInput language q = true <->
         exists pre mid post,
           dataInputLabel language = pre ++ mid ++ post /\ sameText mid q)
        /\ (forall m,
              In m (filteredModules language q) <->
              In m (moduleList language)
              /\ exists pre mid post,
                   ModuleItem.label m = pre ++ mid ++ post /\ sameText mid q)
        /\ (forall tool,
              In tool (filteredTools language q) <->
              In tool (toolList language)
              /\ exists pre mid post,
                   ToolItem.label tool = pre ++ mid ++ post /\ sameText mid q))
  /\ (filteredModules language "OrE"
      = [ModuleItem.mk "3. Ore Petrography"
           (Descriptions.module3 (MODULE_DESCRIPTIONS language))]
      /\ filteredTools language "OrE" = []
      /\ showDataInput language "OrE" = false)
  /\ (filteredModules language "zzz" = []
      /\ filteredTools language "zzz" = []
      /\ showDataInput language "zzz" = false
      /\ hasAnyMatch language "zzz" = false).
Proof.
  split; [|split; [|split; [|split; [|split; [|split]]]]].
  - split; [apply matchesQuery_nil|].
    split; apply filter_all; intros x; apply matchesQuery_nil.
  - intros q. split; [apply matchesQuery_iff|].
    split; intros x; unfold filteredModules, filteredTools;
      rewrite filter_In, matchesQuery_iff; reflexivity.
  - intros q label. unfold matchesQuery.
    now rewrite !toLowerCase_idem.
  - destruct language; eexists; vm_compute; left; reflexivity.
  - intros q. split; [apply matchesQuery_sameText|].
    split; intros x; unfold filteredModules, filteredTools;
      rewrite filter_In, matchesQuery_sameText; reflexivity.
  - destruct language; vm_compute; repeat split.
  - destruct language; vm_compute; repeat split.
Qed.

(* ================================================================= *)
(** ** Shape of a step *)

Lemma suspend_app (t : Task) (w : World) :
  app (suspend t w) = app w /\ browser (suspend t w) = browser w
  /\ apiKey (suspend t w) = apiKey w /\ nextTask (suspend t w) = nextTask w
  /\ tasks (suspend t w) = (tasks w ++ [t])%list.
Proof. unfold suspend. destruct (t_pending t); repeat split. Qed.

Lemma runAnalysis_store (m : option string) (w : World) :
  attachments (app (runAnalysis m w)) = attachments (app w)
  /\ inputs (app (runAnalysis m w)) = inputs (app w)
  /\ browser (runAnalysis m w) = browser w
  /\ apiKey (runAnalysis m w) = apiKey w.
Proof.
  unfold runAnalysis. destruct (apiKey w); simpl; [|now repeat split].
  unfold suspend; simpl. destruct (allAttachments _); now repeat split.
Qed.

Lemma resumeRead_store (i : nat) (w : World) :
  attachments (app (resumeRead i w)) = attachments (app w)
  /\ inputs (app (resumeRead i w)) = inputs (app w)
  /\ browser (resumeRead i w) = browser w
  /\ apiKey (resumeRead i w) = apiKey w.
Proof.
  unfold resumeRead.
  destruct (findTask i (tasks w)) as [t|]; [|now repeat split].
  destruct (t_pending t) as [|att rest]; [now repeat split|].
  destruct (fileToGenerativePart _); [|now repeat split].
  unfold suspend; simpl. destruct rest; now repeat split.
Qed.

Lemma resumeBackend_store (i : nat) (o : BackendOutcome) (w : World) :
  attachments (app (resumeBackend i o w)) = attachments (app w)
  /\ inputs (app (resumeBackend i o w)) = inputs (app w)
  /\ browser (resumeBackend i o w) = browser w
  /\ apiKey (resumeBackend i o w) = apiKey w.
Proof.
  unfold resumeBackend.
  destruct (findTask i (tasks w)) as [t|]; [|now repeat split].
  destruct (t_pending t) as [|att rest]; [|now repeat split].
  destruct o; now repeat split.
Qed.

Lemma step_store (w w' : World) (e : Event) :
  step w e = Some w' -> store_change w w'.
Proof.
  intros H. destruct e.
  all: try (step_cases H; now apply store_same).
  - (* ModuleClick *)
    step_cases H; apply store_same; try reflexivity; apply runAnalysis_store.
  - step_cases H; [now apply store_clear | now apply store_same].
  - (* FilesChange *)
    unfold step, onTab in H.
    destruct (Tab_eqb _ _); [|injection H as <-; now apply store_same].
    destruct files as [fl|].
    + destruct (handleAddAttachment k (Some fl) rnd (app w) (browser w))
        as [[s' b']|] eqn:A; [|discriminate].
      injection H as <-. now apply store_add with k fl rnd s'.
    + simpl in H. injection H as <-. now apply store_same.
  - (* RemoveClick *)
    unfold step, onTab in H.
    destruct (Tab_eqb _ _); [|injection H as <-; now apply store_same].
    destruct (handleRemoveAttachment k id (app w)) as [s'|] eqn:R; [|discriminate].
    injection H as <-. now apply store_remove with k id s'.
  - step_cases H; apply store_same; try reflexivity; apply runAnalysis_store.
  - step_cases H; apply store_same; try reflexivity; apply runAnalysis_store.
  - step_cases H; apply store_same; apply resumeRead_store.
  - step_cases H; apply store_same; apply resumeBackend_store.
Qed.

(* ================================================================= *)
(** ** Invariants of the store *)

Lemma reachable_ind_inv (P : World -> Prop) :
  (forall key, P (initialWorld key)) ->
  (forall w w' e, reachable w -> P w -> step w e = Some w' -> P w') ->
  forall w, reachable w -> P w.
Proof. intros Hi Hs w R. induction R; eauto. Qed.

Lemma exec_reachable (evs : list Event) :
  forall w w', reachable w -> exec w evs = Some w' -> reachable w'.
Proof.
  induction evs as [|e evs IH]; simpl; intros w w' R H.
  - now injection H as <-.
  - destruct (step w e) as [w1|] eqn:S; [|discriminate].
    eapply IH; [|exact H]. eapply reachable_step; eauto.
Qed.

Lemma worldAfter_reachable (evs : list Event) : reachable (worldAfter evs).
Proof.
  unfold worldAfter. destruct (exec (initialWorld true) evs) eqn:E.
  - eapply exec_reachable; [apply reachable_initial | exact E].
  - apply reachable_initial.
Qed.

Lemma obj_set_values (k : Key) (v : list Attachment.t) (o : AttachmentsMap) :
  forall att, In att (allAttachments (obj_set k v o)) ->
              In att v \/ In att (allAttachments o).
Proof.
  unfold allAttachments, Object_values.
  induction o as [|[k' v'] o IH]; simpl; intros att.
  - rewrite app_nil_r. tauto.
  - destruct (Key_eqb k k'); simpl; rewrite !in_app_iff; [tauto|].
    intros [H|H]; [tauto|]. destruct (IH att H); tauto.
Qed.

Lemma obj_get_values (k : Key) (o : AttachmentsMap) (l : list Attachment.t) :
  obj_get k o = Some l -> forall att, In att l -> In att (allAttachments o).
Proof.
  unfold allAttachments, Object_values.
  induction o as [|[k' v'] o IH]; simpl; [discriminate|].
  intros H att Hin. rewrite in_app_iff.
  destruct (Key_eqb k k'); [injection H as ->; tauto | right; eauto].
Qed.

Lemma obj_get_keys (k : Key) (o : AttachmentsMap) :
  Object_keys o = keyOrder -> exists l, obj_get k o = Some l.
Proof.
  intros H. unfold Object_keys, keyOrder in H.
  do 5 (destruct o as [|[? ?] o]; [discriminate|]; simpl in H;
        injection H as -> H).
  destruct k; simpl; eauto.
Qed.

(** With the keys in their order, flattening the values walks the
    categories in that order. *)
Lemma allAttachments_keyOrder (o : AttachmentsMap) :
  Object_keys o = keyOrder ->
  allAttachments o = List.concat (map (fun k => attachmentsOf k o) keyOrder).
Proof.
  intros H. unfold Object_keys, keyOrder in H.
  do 5 (destruct o as [|[? ?] o]; [discriminate|]; simpl in H;
        injection H as -> H).
  destruct o; [reflexivity | discriminate].
Qed.

Lemma newAttachments_created (rnd : nat -> string) (files : list File.t) :
  forall i b,
    created b <= created (snd (newAttachments rnd i files b))
    /\ revoked (snd (newAttachments rnd i files b)) = revoked b.
Proof.
  induction files as [|f fs IH]; intros i b; simpl; [split; [lia | reflexivity]|].
  destruct (startsWith (File.type f) "image/"); simpl;
    split_rest IH; destruct N as [N1 N2]; simpl in *; split; (lia || assumption).
Qed.

Lemma handleOk_mono (n m : nat) (att : Attachment.t) :
  n <= m -> handleOk n att -> handleOk m att.
Proof.
  unfold handleOk. destruct (Attachment.previewUrl att); [|tauto].
  intros L [H1 H2]. split; [lia | assumption].
Qed.

Lemma newAttachments_handles (rnd : nat -> string) (files : list File.t) :
  forall i b att,
    In att (fst (newAttachments rnd i files b)) ->
    handleOk (created (snd (newAttachments rnd i files b))) att.
Proof.
  induction files as [|f fs IH]; intros i b att; simpl; [tauto|].
  destruct (startsWith (File.type f) "image/") eqn:E; simpl.
  - pose proof (newAttachments_created rnd fs (S i)
                  (mkBrowser (S (created b)) (revoked b))) as [C _].
    split_rest (fun i b => IH i b att). simpl in C.
    intros [<-|H]; [|now apply N].
    unfold handleOk; simpl. split; [lia | reflexivity].
  - split_rest (fun i b => IH i b att).
    intros [<-|H]; [|now apply N].
    unfold handleOk; simpl. destruct (_ =? _); discriminate.
Qed.

Lemma storeInv_reachable (w : World) : reachable w -> storeInv w.
Proof.
  revert w. apply reachable_ind_inv.
  - intros key. repeat split. simpl. tauto.
  - intros w w' e _ [K [V H]] S.
    destruct (@step_store _ _ _ S) as [A B|A B|k files rnd s' A B|k id s' A B C].
    + unfold storeInv. now rewrite A, B.
    + unfold storeInv. rewrite A, B. repeat split; [assumption | simpl; tauto].
    + unfold handleAddAttachment in A.
      pose proof (newAttachments_created rnd files 0 (browser w)) as [C1 C2].
      pose proof (newAttachments_handles rnd files 0 (browser w)) as C3.
      destruct (newAttachments rnd 0 files (browser w)) as [new b1].
      destruct (obj_get k (attachments (app w))) as [old|] eqn:G; [|discriminate].
      injection A as <- A2. simpl in *. unfold storeInv. rewrite B, <- A2. simpl.
      split; [rewrite obj_set_keys with (old := old); assumption|].
      split; [congruence|].
      intros att Hin. apply obj_set_values in Hin as [Hin|Hin].
      * apply in_app_iff in Hin as [Hin|Hin]; [|now apply C3].
        apply handleOk_mono with (created (browser w)); [assumption|].
        apply H. eapply obj_get_values; eauto.
      * apply handleOk_mono with (created (browser w)); auto.
    + unfold handleRemoveAttachment in A.
      destruct (obj_get k (attachments (app w))) as [old|] eqn:G; [|discriminate].
      injection A as <-. unfold storeInv. rewrite B, C. simpl.
      split; [rewrite obj_set_keys with (old := old); assumption|].
      split; [assumption|].
      intros att Hin. apply obj_set_values in Hin as [Hin|Hin]; [|auto].
      apply filter_In in Hin as [Hin _]. apply H. eapply obj_get_values; eauto.
Qed.

(* ================================================================= *)
(** ** Invariants of the suspended calls *)

Lemma findTask_In (i : nat) (ts : list Task) (t : Task) :
  findTask i ts = Some t -> In t ts /\ tid t = i.
Proof.
  unfold findTask. intros H. apply find_some in H as [H1 H2].
  split; [assumption | now apply Nat.eqb_eq].
Qed.

Lemma findTask_filter (i : nat) (ts : list Task) :
  findTask i (filter (fun t => negb (tid t =? i)%nat) ts) = None.
Proof.
  unfold findTask. induction ts as [|t ts IH]; simpl; [reflexivity|].
  destruct (tid t =? i)%nat eqn:E; simpl; [assumption | now rewrite E].
Qed.

Lemma suspend_tasks (t : Task) (w : World) :
  tasks (suspend t w) = (tasks w ++ [t])%list.
Proof. apply suspend_app. Qed.

Lemma suspend_nextTask (t : Task) (w : World) :
  nextTask (suspend t w) = nextTask w.
Proof. apply suspend_app. Qed.

Lemma suspend_calls (t : Task) (w : World) :
  calls (suspend t w) = (calls w ++ sent t)%list.
Proof.
  unfold suspend, sent. destruct (t_pending t); simpl;
    [reflexivity | now rewrite app_nil_r].
Qed.

Lemma runAnalysis_async (m : option string) (w : World) :
  async_change w (runAnalysis m w).
Proof.
  unfold runAnalysis. destruct (apiKey w); simpl; [|now apply async_same].
  match goal with |- async_change _ (suspend ?t ?v) =>
    apply async_start with t;
      [reflexivity | now rewrite suspend_nextTask
      | now rewrite suspend_tasks | now rewrite suspend_calls]
  end.
Qed.

Lemma resumeRead_async (i : nat) (w : World) :
  async_change w (resumeRead i w).
Proof.
  unfold resumeRead.
  destruct (findTask i (tasks w)) as [t|] eqn:F; [|now apply async_same].
  apply findTask_In in F as [F1 <-].
  destruct (t_pending t) as [|att rest] eqn:P; [now apply async_same|].
  destruct (fileToGenerativePart _) as [part|] eqn:E.
  - apply async_continue with t att rest part; try assumption.
    + now rewrite suspend_nextTask.
    + now rewrite suspend_tasks.
    + now rewrite suspend_calls.
  - now apply async_finish with (tid t).
Qed.

Lemma resumeBackend_async (i : nat) (o : BackendOutcome) (w : World) :
  async_change w (resumeBackend i o w).
Proof.
  unfold resumeBackend.
  destruct (findTask i (tasks w)) as [t|] eqn:F; [|now apply async_same].
  apply findTask_In in F as [F1 <-].
  destruct (t_pending t); [|now apply async_same].
  destruct o; now apply async_finish with (tid t).
Qed.

Lemma step_async (w w' : World) (e : Event) :
  step w e = Some w' -> async_change w w'.
Proof.
  intros H. destruct e; step_cases H;
    first [ now apply async_same | apply runAnalysis_async
          | apply resumeRead_async | apply resumeBackend_async ].
Qed.

Lemma sent_id (t : Task) (i : nat) (r : Request) :
  In (i, r) (sent t) -> i = tid t /\ t_pending t = [] /\ parts r = t_parts t.
Proof.
  unfold sent. destruct (t_pending t); simpl; [|tauto].
  intros [H|[]]. injection H as <- <-. now repeat split.
Qed.

Lemma taskInv_reachable (w : World) : reachable w -> taskInv w.
Proof.
  revert w. apply reachable_ind_inv.
  - intros key. repeat split; simpl; tauto.
  - intros w w' e _ (I1 & I2 & I3) S.
    destruct (@step_async _ _ _ S) as [T C N|t Ht N T C|t att rest part Ht P E t' N T C|i N T C];
      unfold taskInv; rewrite ?T, ?C, ?N.
    + now repeat split.
    + repeat split.
      * intros x Hx. apply in_app_iff in Hx as [Hx|[<-|[]]];
          [apply I1 in Hx|]; lia.
      * intros i r Hi. apply in_app_iff in Hi as [Hi|Hi];
          [apply I2 in Hi | apply sent_id in Hi as [-> _]]; lia.
      * intros x r Hx Px Hc.
        apply in_app_iff in Hx as [Hx|[<-|[]]];
          apply in_app_iff in Hc as [Hc|Hc].
        -- now apply (I3 x r).
        -- apply sent_id in Hc as [Hc _]. apply I1 in Hx. lia.
        -- apply I2 in Hc. lia.
        -- apply sent_id in Hc as (_ & Hc & _). contradiction.
    + repeat split.
      * intros x Hx. apply in_app_iff in Hx as [Hx|[<-|[]]].
        -- apply filter_In in Hx as [Hx _]. now apply I1.
        -- simpl. now apply I1.
      * intros i r Hi. apply in_app_iff in Hi as [Hi|Hi]; [now apply I2 in Hi|].
        apply sent_id in Hi as [-> _]. simpl. now apply I1.
      * intros x r Hx Px Hc.
        apply in_app_iff in Hx as [Hx|[<-|[]]];
          apply in_app_iff in Hc as [Hc|Hc].
        -- apply filter_In in Hx as [Hx _]. now apply (I3 x r).
        -- apply filter_In in Hx as [Hx Hn]. apply sent_id in Hc as [Hc _].
           simpl in Hc. rewrite Hc, Nat.eqb_refl in Hn. discriminate.
        -- simpl in Hc. apply (I3 t r); [assumption | now rewrite P | assumption].
        -- apply sent_id in Hc as (_ & Hc & _). contradiction.
    + repeat split.
      * intros x Hx. apply filter_In in Hx as [Hx _]. now apply I1.
      * assumption.
      * intros x r Hx. apply filter_In in Hx as [Hx _]. now apply I3.
Qed.

(* ================================================================= *)
(** ** A submission and its request *)

Lemma completion_continue (t : Task) (att : Attachment.t) (rest : list Attachment.t)
    (part : Part.t) :
  t_pending t = att :: rest ->
  fileToGenerativePart (Attachment.file att) = Some part ->
  completion (mkTask (tid t) (t_language t) (t_parts t ++ [part]) rest) = completion t.
Proof.
  unfold completion. intros -> E. simpl. rewrite E.
  destruct (encodeAll rest); [|reflexivity].
  now rewrite <- app_assoc.
Qed.

Lemma bound_step (i : nat) (target : option (list Part.t)) (w w' : World) (e : Event) :
  bound i target w -> step w e = Some w' -> bound i target w'.
Proof.
  intros (B1 & B2 & B3) S.
  destruct (@step_async _ _ _ S) as [T C N|t Ht N T C|t att rest part Ht P E t' N T C|j N T C];
    unfold bound; rewrite ?T, ?C, ?N.
  - now repeat split.
  - repeat split; [lia | |].
    + intros x Hx Hi. apply in_app_iff in Hx as [Hx|[<-|[]]]; [auto | lia].
    + intros r Hr. apply in_app_iff in Hr as [Hr|Hr]; [auto|].
      apply sent_id in Hr as [Hr _]. lia.
  - assert (K : tid t = i -> completion t' = target).
    { intros Hi. unfold t'. rewrite (completion_continue _ P E). auto. }
    repeat split; [assumption | |].
    + intros x Hx Hi. apply in_app_iff in Hx as [Hx|[<-|[]]]; [|auto].
      apply filter_In in Hx as [Hx _]. auto.
    + intros r Hr. apply in_app_iff in Hr as [Hr|Hr]; [auto|].
      apply sent_id in Hr as (Hi & Hp & Hq). simpl in Hi.
      rewrite <- K by congruence. unfold completion, t'. simpl.
      simpl in Hp. rewrite Hp. simpl. rewrite app_nil_r. now rewrite Hq.
  - repeat split; [assumption | |assumption].
    intros x Hx Hi. apply filter_In in Hx as [Hx _]. auto.
Qed.

Lemma bound_exec (i : nat) (target : option (list Part.t)) (evs : list Event) :
  forall w w', bound i target w -> exec w evs = Some w' -> bound i target w'.
Proof.
  induction evs as [|e evs IH]; simpl; intros w w' B H.
  - now injection H as <-.
  - destruct (step w e) as [w1|] eqn:S; [|discriminate].
    eapply IH; [|exact H]. eapply bound_step; eauto.
Qed.

Lemma encodeAll_Forall2 (atts : list Attachment.t) :
  forall ps,
    encodeAll atts = Some ps <->
    Forall2 (fun att part => fileToGenerativePart (Attachment.file att) = Some part)
      atts ps.
Proof.
  induction atts as [|att atts IH]; intros ps; simpl.
  - split; intros H; [injection H as <-; constructor | now inversion H].
  - split.
    + destruct (fileToGenerativePart _) as [part|] eqn:E; [|discriminate].
      destruct (encodeAll atts) as [qs|]; [|discriminate].
      intros H; injection H as <-. constructor; [assumption | now apply IH].
    + intros H. inversion H as [|? part ? qs E F]; subst.
      rewrite E. apply IH in F. now rewrite F.
Qed.

Lemma findTask_none (i : nat) (ts : list Task) :
  (forall t, In t ts -> tid t <> i) -> findTask i ts = None.
Proof.
  unfold findTask. induction ts as [|t ts IH]; simpl; intros H; [reflexivity|].
  destruct (Nat.eqb_spec (tid t) i) as [E|E].
  - exfalso. now apply (H t); [left|].
  - apply IH. intros x Hx. apply H. now right.
Qed.

Lemma findTask_last (i : nat) (ts : list Task) (t : Task) :
  findTask i ts = None -> tid t = i -> findTask i (ts ++ [t]) = Some t.
Proof.
  unfold findTask. intros N E. induction ts as [|x ts IH]; simpl in *.
  - now rewrite E, Nat.eqb_refl.
  - destruct (tid x =? i)%nat; [discriminate | auto].
Qed.

(** If every file that is left can be read, the completions of the
    reads alone take a suspended call to its backend call. *)
Lemma reads_reach_backend (pending : list Attachment.t) :
  forall (t : Task) (v : World) (ps : list Part.t),
    t_pending t = pending ->
    encodeAll pending = Some ps ->
    findTask (tid t) (tasks v) = None ->
    exists v',
      exec (suspend t v) (repeat (ReadEnd (tid t)) (List.length pending)) = Some v'
      /\ exists r, In (tid t, r) (calls v') /\ parts r = (t_parts t ++ ps)%list.
Proof.
  induction pending as [|att rest IH]; intros t v ps P E F; simpl.
  - injection E as <-. exists (suspend t v). split; [reflexivity|].
    rewrite suspend_calls. unfold sent. rewrite P.
    eexists. split; [apply in_app_iff; right; left; reflexivity|].
    simpl. now rewrite app_nil_r.
  - simpl in E.
    destruct (fileToGenerativePart _) as [part|] eqn:G; [|discriminate].
    destruct (encodeAll rest) as [qs|] eqn:Q; [|discriminate].
    injection E as <-.
    unfold resumeRead. rewrite suspend_tasks, (@findTask_last (tid t) (tasks v) t F eq_refl), P, G.
    set (t' := mkTask (tid t) (t_language t) (t_parts t ++ [part]) rest).
    destruct (IH t' (dropTask (tid t) (suspend t v)) qs eq_refl eq_refl)
      as (v' & X & r & R1 & R2).
    { apply findTask_filter. }
    exists v'. split; [exact X|]. exists r. split; [exact R1|].
    rewrite R2. simpl. now rewrite <- app_assoc.
Qed.

(** C2.  From any state of the page, the request that a call of
    [runAnalysis] sends has the prompt text at index 0 and then one part
    per attachment of the snapshot taken at the call: the categories in
    the order field, handSpecimen, microscopy, geochemistry,
    remoteSensing, and the attachments of a category in the order of its
    list.  This holds whatever happens between the call and the request
    (the order in which reads end, edits of the store, other calls);
    and if every attachment can be read, the ends of the reads alone
    lead to that request. *)
Theorem request_parts_order (w : World) (m : option string) :
  reachable w ->
  apiKey w = true ->
  let prompt :=
    mainPromptText (language (app w)) (inputs (app w)) (activeTab (app w)) m in
  let snapshot :=
    List.concat
      (map (fun k => attachmentsOf k (attachments (app w)))
         [Kfield; KhandSpecimen; Kmicroscopy; Kgeochemistry; KremoteSensing]) in
  (forall evs w' r,
     exec (runAnalysis m w) evs = Some w' ->
     In (nextTask w, r) (calls w') ->
     exists ps,
       parts r = Part.text prompt :: ps
       /\ Forall2 (fun att part => fileToGenerativePart (Attachment.file att) = Some part)
            snapshot ps)
  /\ (forall ps,
        Forall2 (fun att part => fileToGenerativePart (Attachment.file att) = Some part)
          snapshot ps ->
        exists w' r,
          exec (runAnalysis m w) (repeat (ReadEnd (nextTask w)) (List.length ps)) = Some w'
          /\ In (nextTask w, r) (calls w')
          /\ parts r = Part.text prompt :: ps).
Proof.
  intros R K prompt snapshot.
  destruct (storeInv_reachable R) as (O & _ & _).
  destruct (taskInv_reachable R) as (I1 & I2 & _).
  assert (Snap : allAttachments (attachments (app w)) = snapshot)
    by (now apply allAttachments_keyOrder).
  set (t0 := mkTask (nextTask w) (language (app w)) [Part.text prompt] snapshot).
  set (v0 := mkWorld (setResult "" (setActiveTab TabResults (setLoading true (app w))))
               (browser w) (apiKey w) (alerts w) (tasks w) (S (nextTask w)) (calls w)).
  assert (Run : runAnalysis m w = suspend t0 v0).
  { unfold runAnalysis.
    replace (negb (apiKey w)) with false by (now rewrite K).
    now rewrite Snap. }
  rewrite Run. split.
  - intros evs w' r X Hin.
    assert (B : bound (nextTask w) (completion t0) (suspend t0 v0)).
    { unfold bound. rewrite suspend_nextTask, suspend_tasks, suspend_calls. simpl.
      split; [lia|]. split.
      - intros t Ht Hi. apply in_app_iff in Ht as [Ht|[<-|[]]]; [|reflexivity].
        apply I1 in Ht. lia.
      - intros q Hq. apply in_app_iff in Hq as [Hq|Hq]; [apply I2 in Hq; lia|].
        apply sent_id in Hq as (_ & Hp & Hq). unfold completion.
        rewrite Hp, Hq. reflexivity. }
    destruct (bound_exec _ B X) as (_ & _ & B3).
    specialize (B3 r Hin). unfold completion in B3. simpl in B3.
    destruct (encodeAll snapshot) as [ps|] eqn:E; [|discriminate].
    injection B3 as B3. exists ps. split; [assumption|].
    now apply encodeAll_Forall2.
  - intros ps F. apply encodeAll_Forall2 in F.
    destruct (@reads_reach_backend snapshot t0 v0 ps eq_refl F) as (w' & X & r & R1 & R2).
    { apply findTask_none. intros t Ht. apply I1 in Ht. simpl. lia. }
    exists w', r.
    assert (L : List.length ps = List.length snapshot).
    { apply encodeAll_Forall2 in F. symmetry. eapply Forall2_length; eauto. }
    rewrite L. simpl in X. repeat split; assumption.
Qed.

Lemma request_parts_order_witness :
  exists w' r,
    exec (runAnalysis None sample_store) (repeat (ReadEnd 0) 2) = Some w'
    /\ In (0, r) (calls w')
    /\ parts r =
         [ Part.text (mainPromptText en INITIAL_INPUTS TabInputs None);
           Part.inlineData (Some "iVBORw0KGgo=") "image/png";
           Part.text (nl ++ "[File Attachment: assay.csv]" ++ nl ++ "Cu,Au" ++ nl) ].
Proof.
  destruct (@request_parts_order sample_store None (worldAfter_reachable _) eq_refl)
    as [_ L].
  apply (L [ Part.inlineData (Some "iVBORw0KGgo=") "image/png";
             Part.text (nl ++ "[File Attachment: assay.csv]" ++ nl ++ "Cu,Au" ++ nl) ]).
  repeat constructor.
Defined.

(* ================================================================= *)
(** ** Outcomes of a submission *)

(** C4 as the specification words it fails: after the read of
    broken.png is rejected the page shows the message of the [catch]
    block, which does not contain the name of the file. *)
Lemma failure_message_counterexample :
  exists w',
    step sample_reading (ReadEnd 0) = Some w'
    /\ result (app w') = "Error generating analysis. Please check console."
    /\ includes (result (app w')) (File.name sample_broken) = false.
Proof. eexists. repeat split. Qed.

(** C4, amended.  When the read that a call of [runAnalysis] awaits is
    rejected, the call ends there: the result becomes the generic error
    message in the language of the call (it does not name the file),
    loading is switched off, the texts and the attachments are
    untouched, and no request of this call has reached or will ever
    reach the backend. *)
Theorem read_failure_aborts (w : World) (i : nat) (t : Task)
    (att : Attachment.t) (rest : list Attachment.t) :
  reachable w ->
  findTask i (tasks w) = Some t ->
  t_pending t = att :: rest ->
  fileToGenerativePart (Attachment.file att) = None ->
  exists w',
    step w (ReadEnd i) = Some w'
    /\ result (app w') = errorMessage (t_language t)
    /\ loading (app w') = false
    /\ inputs (app w') = inputs (app w)
    /\ attachments (app w') = attachments (app w)
    /\ findTask i (tasks w') = None
    /\ calls w' = calls w
    /\ forall evs w'' r, exec w' evs = Some w'' -> ~ In (i, r) (calls w'').
Proof.
  intros R F P E.
  destruct (taskInv_reachable R) as (I1 & _ & I3).
  pose proof (findTask_In _ _ F) as [Hin Hid].
  exists (failTask t w).
  assert (S : resumeRead i w = failTask t w).
  { unfold resumeRead. now rewrite F, P, E. }
  split; [simpl; now rewrite S|].
  repeat split.
  - unfold failTask, dropTask; simpl. rewrite Hid. apply findTask_filter.
  - intros evs w'' r X Hc.
    assert (B : bound i None (failTask t w)).
    { unfold bound, failTask, dropTask; simpl. split; [|split].
      - rewrite <- Hid. now apply I1.
      - intros x Hx Hi. apply filter_In in Hx as [_ Hx].
        rewrite Hid, Hi, Nat.eqb_refl in Hx. discriminate.
      - intros q Hq. exfalso. apply (I3 t q); [assumption | now rewrite P|].
        now rewrite Hid. }
    destruct (bound_exec _ B X) as (_ & _ & B3).
    specialize (B3 r Hc). discriminate.
Qed.

Lemma read_failure_aborts_witness :
  exists w',
    step sample_reading (ReadEnd 0) = Some w'
    /\ result (app w') = errorMessage en
    /\ loading (app w') = false
    /\ inputs (app w') = inputs (app sample_reading)
    /\ attachments (app w') = attachments (app sample_reading)
    /\ findTask 0 (tasks w') = None
    /\ calls w' = calls sample_reading
    /\ forall evs w'' r, exec w' evs = Some w'' -> ~ In (0, r) (calls w'').
Proof.
  apply (@read_failure_aborts sample_reading 0
           (mkTask 0 en
              [Part.text (mainPromptText en
                            (mkInputs "andesite host rock with quartz veining" "" "" "" "")
                            TabInputs None)]
              [Attachment.mk "k3j9x0a1b" sample_broken (Some 0) image])
           (Attachment.mk "k3j9x0a1b" sample_broken (Some 0) image) []
           (worldAfter_reachable _) eq_refl eq_refl eq_refl).
Defined.

(** C5 as the specification words it fails: a response without text
    leaves the fixed English fallback as the result, which is not the
    error message of the language of the call. *)
Lemma empty_response_counterexample :
  exists w',
    step sample_calling (BackendEnd 0 (Responded None)) = Some w'
    /\ language (app sample_calling) = ur
    /\ result (app w') = "No analysis generated."
    /\ result (app w') <> errorMessage ur
    /\ step sample_calling (BackendEnd 0 (Responded (Some ""))) = Some w'.
Proof. eexists. repeat split. discriminate. Qed.

(** C5, amended.  When the backend call of a suspended [runAnalysis]
    settles, loading is switched off and the call is over.  A rejection
    leaves the generic error message in the language of the call as the
    result; a response whose text is missing or empty leaves the fixed
    English sentence No analysis generated.; a response with a
    non-empty text leaves that text. *)
Theorem backend_outcome (w : World) (i : nat) (t : Task) (o : BackendOutcome) :
  findTask i (tasks w) = Some t ->
  t_pending t = [] ->
  exists w',
    step w (BackendEnd i o) = Some w'
    /\ loading (app w') = false
    /\ findTask i (tasks w') = None
    /\ calls w' = calls w
    /\ inputs (app w') = inputs (app w)
    /\ attachments (app w') = attachments (app w)
    /\ result (app w') =
         match o with
         | Rejected => errorMessage (t_language t)
         | Responded None => "No analysis generated."
         | Responded (Some EmptyString) => "No analysis generated."
         | Responded (Some answer) => answer
         end.
Proof.
  intros F P. pose proof (findTask_In _ _ F) as [_ Hid].
  exists (resumeBackend i o w). split; [reflexivity|].
  unfold resumeBackend. rewrite F, P.
  destruct o as [|[[|c s]|]]; simpl; repeat split;
    try (rewrite ?Hid; apply findTask_filter).
Qed.

Lemma backend_outcome_witness :
  exists w',
    step sample_calling (BackendEnd 0 (Responded (Some "Porphyry Cu-Au, 70%"))) = Some w'
    /\ loading (app w') = false
    /\ findTask 0 (tasks w') = None
    /\ calls w' = calls sample_calling
    /\ inputs (app w') = inputs (app sample_calling)
    /\ attachments (app w') = attachments (app sample_calling)
    /\ result (app w') = "Porphyry Cu-Au, 70%".
Proof.
  apply (@backend_outcome sample_calling 0
           (mkTask 0 ur [Part.text (mainPromptText ur INITIAL_INPUTS TabInputs None)] [])
           (Responded (Some "Porphyry Cu-Au, 70%")) eq_refl eq_refl).
Defined.

(* ================================================================= *)
(** ** Preview handles *)

(** C6 as the specification words it fails: the object URL of an
    image that was added and removed is in use nowhere and was never
    revoked. *)
Lemma preview_handle_leak_counterexample :
  ~ (forall (w : World) (u : ObjectURL),
       reachable w ->
       u < created (browser w) ->
       inUse u w = false ->
       releases u w = 1).
Proof.
  intros H.
  pose proof (H sample_removed 0 (worldAfter_reachable _) (le_n 1) eq_refl) as X.
  discriminate X.
Qed.

(** C6, amended.  No handler of the page releases a preview handle:
    in every state that can be reached each object URL has been revoked
    zero times, so none is released twice and those of removed or
    cleared attachments stay allocated; removing an attachment and
    clearing the store leave the browser's URL store as it is.  The
    handles held in the store are those of the image attachments, each
    handed out by the browser. *)
Theorem preview_handles_never_released (w : World) :
  reachable w ->
  (forall u, releases u w = 0)
  /\ (forall att,
        In att (allAttachments (attachments (app w))) ->
        match Attachment.previewUrl att with
        | Some u => u < created (browser w) /\ Attachment.type att = image
        | None => Attachment.type att <> image
        end)
  /\ (forall w', step w ClearClick = Some w' -> browser w' = browser w)
  /\ (forall k id w', step w (RemoveClick k id) = Some w' -> browser w' = browser w).
Proof.
  intros R. destruct (storeInv_reachable R) as (_ & V & H).
  split; [intros u; unfold releases; now rewrite V|].
  split; [exact H|].
  split; [intros w' S | intros k id w' S]; step_cases S; reflexivity.
Qed.

Lemma preview_handles_never_released_witness :
  (forall u, releases u sample_removed = 0)
  /\ (forall att,
        In att (allAttachments (attachments (app sample_removed))) ->
        match Attachment.previewUrl att with
        | Some u => u < created (browser sample_removed) /\ Attachment.type att = image
        | None => Attachment.type att <> image
        end)
  /\ (forall w', step sample_removed ClearClick = Some w' ->
                 browser w' = browser sample_removed)
  /\ (forall k id w', step sample_removed (RemoveClick k id) = Some w' ->
                      browser w' = browser sample_removed).
Proof.
  apply (@preview_handles_never_released sample_removed (worldAfter_reachable _)).
Defined.

(* ================================================================= *)
(** ** Where the code departs from the specification *)

(** C1 (the code departs from it).  [runAnalysis] does not look at
    [loading]: whenever the key is present, and for every argument, it
    suspends one more call.  While a full analysis is loading, the Run
    Full Analysis button is disabled and does nothing, but a module
    button of the sidebar and the button of the heat map tab call
    [runAnalysis] all the same: the tab changes, a second call is
    suspended and a second request goes to the backend. *)
Theorem runAnalysis_while_loading :
  (forall (w : World) (m : option string),
     apiKey w = true ->
     nextTask (runAnalysis m w) = S (nextTask w)
     /\ exists t, tid t = nextTask w /\ tasks (runAnalysis m w) = (tasks w ++ [t])%list)
  /\ loading (app sample_loading) = true
  /\ activeTab (app sample_loading) = TabInputs
  /\ map fst (calls sample_loading) = [0]
  /\ step sample_loading AnalyzeClick = Some sample_loading
  /\ (exists w',
        step sample_loading (ModuleClick 0) = Some w'
        /\ activeTab (app w') = TabResults
        /\ map tid (tasks w') = [0; 1]
        /\ map fst (calls w') = [0; 1])
  /\ (exists w',
        exec sample_loading [ToolClick 0; GeneratePythonClick] = Some w'
        /\ map tid (tasks w') = [0; 1]
        /\ map fst (calls w') = [0; 1]).
Proof.
  split.
  - intros w m K. unfold runAnalysis.
    replace (negb (apiKey w)) with false by (now rewrite K).
    rewrite suspend_nextTask, suspend_tasks. split; [reflexivity|].
    eexists. split; [|reflexivity]. reflexivity.
  - repeat split; try (eexists; repeat split).
Qed.

Lemma first_char_differs (a b : string) :
  get 0 a <> get 0 b -> a <> b.
Proof. intros H E. apply H. now rewrite E. Qed.

Lemma isGeneratePythonCode_truthy (specificModule : option string) :
  isGeneratePythonCode specificModule = true -> truthy specificModule = true.
Proof.
  destruct specificModule as [m|]; simpl; [|discriminate].
  intros H. apply String.eqb_eq in H. now subst.
Qed.

(** C3 (the code departs from it).  The argument that the heat map
    button passes is a non-empty string, so the first branch of the
    conditional takes it: the prompt is the named-module instruction
    for a module called Generate Python Code.  The structured
    instruction of the second branch is the prompt of no call at all. *)
Theorem heatmap_prompt_never_chosen (language : Language) (texts : DataInputs) :
  mainPromptText language texts TabHeatmap (Some "Generate Python Code")
  = "Run specific module analysis: Generate Python Code." ++ nl
    ++ inputSummary (LABELS language) texts
  /\ (forall activeTab specificModule,
        mainPromptText language texts activeTab specificModule
        <> heatmapPromptText texts)
  /\ (exists w',
        step sample_heatmap GeneratePythonClick = Some w'
        /\ map t_parts (tasks w')
           = [[Part.text
                 ("Run specific module analysis: Generate Python Code." ++ nl
                  ++ inputSummary (LABELS en) (inputs (app sample_heatmap)))]]).
Proof.
  split; [reflexivity|]. split.
  - intros activeTab specificModule. unfold mainPromptText.
    destruct (truthy specificModule) eqn:T.
    + apply first_char_differs. vm_compute. discriminate.
    + destruct (Tab_eqb activeTab TabHeatmap && isGeneratePythonCode specificModule) eqn:G.
      * apply andb_true_iff in G as [_ G].
        apply isGeneratePythonCode_truthy in G. congruence.
      * apply first_char_differs. vm_compute. discriminate.
  - eexists. split; reflexivity.
Qed.

(* ================================================================= *)
(** ** More on the input store *)

(** X1.  [handleInputChange] is last write wins: the category that was
    written reads back the value as given (the empty string included),
    every other category reads what it read before, and no other cell
    of the state changes. *)
Theorem handleInputChange_lookup (k : Key) (value : string) (s : AppState) :
  getInput k (inputs (handleInputChange k value s)) = value
  /\ (forall k', k' <> k ->
        getInput k' (inputs (handleInputChange k value s)) = getInput k' (inputs s))
  /\ (forall value',
        inputs (handleInputChange k value' (handleInputChange k value s))
        = inputs (handleInputChange k value' s))
  /\ attachments (handleInputChange k value s) = attachments s
  /\ result (handleInputChange k value s) = result s
  /\ loading (handleInputChange k value s) = loading s
  /\ activeTab (handleInputChange k value s) = activeTab s
  /\ language (handleInputChange k value s) = language s.
Proof.
  split; [now destruct k|].
  split; [intros k' N; destruct k, k'; try reflexivity; congruence|].
  split; [intros value'; now destruct k|].
  now repeat split.
Qed.

Lemma Key_eqb_eq (a b : Key) : Key_eqb a b = true <-> a = b.
Proof. destruct a, b; simpl; split; congruence. Qed.

Lemma Key_eqb_refl (a : Key) : Key_eqb a a = true.
Proof. now destruct a. Qed.

Lemma obj_get_set_other (k k' : Key) (v : list Attachment.t) (o : AttachmentsMap) :
  k' <> k -> obj_get k' (obj_set k v o) = obj_get k' o.
Proof.
  intros N. induction o as [|[j u] o IH]; simpl.
  - destruct (Key_eqb k' k) eqn:E; [apply Key_eqb_eq in E; contradiction | reflexivity].
  - destruct (Key_eqb k j) eqn:E; simpl.
    + apply Key_eqb_eq in E. subst j.
      destruct (Key_eqb k' k) eqn:E'; [apply Key_eqb_eq in E'; contradiction | reflexivity].
    + destruct (Key_eqb k' j); [reflexivity | assumption].
Qed.

Lemma filter_id_absent (id : string) (l : list Attachment.t) :
  (forall att, In att l -> Attachment.id att <> id) ->
  filter (fun att => negb (Attachment.id att =? id)) l = l.
Proof.
  induction l as [|a l IH]; simpl; intros H; [reflexivity|].
  destruct (String.eqb_spec (Attachment.id a) id) as [E|E]; simpl.
  - exfalso. now apply (H a); [left|].
  - rewrite IH; [reflexivity|]. intros att Hin. apply H. now right.
Qed.

(** X2.  [handleRemoveAttachment] on a category that exists drops from
    its list every attachment with the given id and nothing else: no
    attachment with that id is left; an attachment with another id
    stays; when the id occurs once the list is the old one without
    that element, in the old order; when it does not occur the list
    is the old one.  The other categories and the other cells of the
    state are untouched. *)
Theorem handleRemoveAttachment_by_id (k : Key) (id : string) (s : AppState)
    (old : list Attachment.t) :
  obj_get k (attachments s) = Some old ->
  exists s' new,
    handleRemoveAttachment k id s = Some s'
    /\ obj_get k (attachments s') = Some new
    /\ (forall att, In att new <-> In att old /\ Attachment.id att <> id)
    /\ (forall before att after,
          old = (before ++ att :: after)%list ->
          Attachment.id att = id ->
          (forall x, In x (before ++ after)%list -> Attachment.id x <> id) ->
          new = (before ++ after)%list)
    /\ ((forall att, In att old -> Attachment.id att <> id) -> new = old)
    /\ (forall k', k' <> k -> obj_get k' (attachments s') = obj_get k' (attachments s))
    /\ Object_keys (attachments s') = Object_keys (attachments s)
    /\ inputs s' = inputs s
    /\ result s' = result s
    /\ loading s' = loading s.
Proof.
  intros G. unfold handleRemoveAttachment. rewrite G.
  set (keep := fun att => negb (Attachment.id att =? id)).
  exists (setAttachments (obj_set k (filter keep old) (attachments s)) s), (filter keep old).
  split; [reflexivity|].
  split; [simpl; now apply obj_get_set_same with (old := old)|].
  split.
  { intros att. rewrite filter_In. unfold keep.
    destruct (String.eqb_spec (Attachment.id att) id); simpl; intuition congruence. }
  split.
  { intros before att after -> E H. rewrite filter_app. simpl.
    unfold keep at 2. rewrite E, String.eqb_refl. simpl.
    rewrite <- filter_app. apply filter_id_absent. exact H. }
  split; [apply filter_id_absent|].
  split; [intros k' N; simpl; now apply obj_get_set_other|].
  split; [simpl; now apply obj_set_keys with (old := old)|].
  now repeat split.
Qed.

Lemma handleRemoveAttachment_by_id_witness :
  exists s' new,
    handleRemoveAttachment Kfield "k3j9x0a1b" sample_two = Some s'
    /\ obj_get Kfield (attachments s') = Some new
    /\ new = [ Attachment.mk "q7w2e5r8t" sample_pdf None pdf ].
Proof.
  destruct (@handleRemoveAttachment_by_id Kfield "k3j9x0a1b" sample_two _ eq_refl)
    as (s' & new & H1 & H2 & _ & H4 & _).
  exists s', new. split; [exact H1|]. split; [exact H2|].
  apply (H4 [] (Attachment.mk "k3j9x0a1b" sample_png (Some 0) image)
            [ Attachment.mk "q7w2e5r8t" sample_pdf None pdf ]).
  - reflexivity.
  - reflexivity.
  - intros x [<-|[]]. discriminate.
Defined.

Lemma handlesOf_app (a b : list Attachment.t) :
  handlesOf (a ++ b) = (handlesOf a ++ handlesOf b)%list.
Proof.
  induction a as [|x a IH]; simpl; [reflexivity|].
  destruct (Attachment.previewUrl x); simpl; now rewrite IH.
Qed.

Lemma handlesOf_In (u : ObjectURL) (atts : list Attachment.t) :
  In u (handlesOf atts) <->
  exists att, In att atts /\ Attachment.previewUrl att = Some u.
Proof.
  induction atts as [|x atts IH]; simpl.
  - split; [tauto | intros (att & [] & _)].
  - destruct (Attachment.previewUrl x) as [v|] eqn:E; simpl; rewrite IH; split.
    + intros [<-|(att & H1 & H2)]; [exists x | exists att]; tauto.
    + intros (att & [<-|H1] & H2); [left; congruence | right; eauto].
    + intros (att & H1 & H2). exists att. tauto.
    + intros (att & [<-|H1] & H2); [congruence | eauto].
Qed.

Lemma newAttachments_count (rnd : nat -> string) (files : list File.t) :
  forall i b,
    handlesOf (fst (newAttachments rnd i files b)) = seq (created b) (imageCount files)
    /\ created (snd (newAttachments rnd i files b)) = created b + imageCount files
    /\ map Attachment.id (fst (newAttachments rnd i files b))
       = map rnd (seq i (List.length files)).
Proof.
  unfold imageCount.
  induction files as [|f fs IH]; intros i b; simpl;
    [repeat split; lia|].
  destruct (startsWith (File.type f) "image/"); simpl;
    split_rest IH; destruct N as (N1 & N2 & N3); simpl in *;
    rewrite N1, N2, N3; repeat split; lia.
Qed.

Lemma obj_set_split (k : Key) (old : list Attachment.t) (o : AttachmentsMap) :
  obj_get k o = Some old ->
  exists pre post,
    allAttachments o = (pre ++ old ++ post)%list
    /\ forall v, allAttachments (obj_set k v o) = (pre ++ v ++ post)%list.
Proof.
  unfold allAttachments, Object_values.
  induction o as [|[j u] o IH]; simpl; [discriminate|].
  destruct (Key_eqb k j); intros G.
  - injection G as ->. exists [], (List.concat (map snd o)). now split.
  - destruct (IH G) as (pre & post & H1 & H2).
    exists (u ++ pre)%list, post. split.
    + now rewrite H1, app_assoc.
    + intros v. simpl. now rewrite H2, app_assoc.
Qed.

Lemma obj_set_same_value (k : Key) (old : list Attachment.t) (o : AttachmentsMap) :
  obj_get k o = Some old -> obj_set k old o = o.
Proof.
  induction o as [|[j u] o IH]; simpl; [discriminate|].
  destruct (Key_eqb k j); intros G; [now injection G as -> | now rewrite IH].
Qed.

(** X3.  [handleAddAttachment] with a file list asks the browser for
    one object URL per file whose mime type starts with image/ and for
    none else: the new records hold consecutive fresh handles, in file
    order, and their ids are the draws of [Math.random] in file order.
    Only the list of the category grows; the other categories, the
    texts and the result are untouched, and nothing is revoked.  With
    [null] nothing changes at all, and with an empty list the store is
    the same. *)
Theorem handleAddAttachment_effect (k : Key) (files : list File.t) (rnd : nat -> string)
    (s s' : AppState) (b b' : Browser) :
  handleAddAttachment k (Some files) rnd s b = Some (s', b') ->
  (exists old new,
     obj_get k (attachments s) = Some old
     /\ obj_get k (attachments s') = Some (old ++ new)%list
     /\ handlesOf new = seq (created b) (imageCount files)
     /\ map Attachment.id new = map rnd (seq 0 (List.length files)))
  /\ created b' = created b + imageCount files
  /\ revoked b' = revoked b
  /\ (forall k', k' <> k -> obj_get k' (attachments s') = obj_get k' (attachments s))
  /\ (files = [] -> attachments s' = attachments s)
  /\ inputs s' = inputs s
  /\ result s' = result s
  /\ loading s' = loading s
  /\ handleAddAttachment k None rnd s b = Some (s, b).
Proof.
  unfold handleAddAttachment.
  pose proof (newAttachments_count rnd files 0 b) as (C1 & C2 & C3).
  pose proof (newAttachments_created rnd files 0 b) as (_ & C4).
  destruct (newAttachments rnd 0 files b) as [new b1] eqn:N.
  destruct (obj_get k (attachments s)) as [old|] eqn:G; [|discriminate].
  intros H; injection H as <- <-. simpl in *.
  split.
  { exists old, new. split; [reflexivity|].
    split; [now apply obj_get_set_same with (old := old)|]. now split. }
  split; [assumption|]. split; [assumption|].
  split; [intros k' Hk; now apply obj_get_set_other|].
  split.
  { intros ->. simpl in N. injection N as <- _. rewrite app_nil_r.
    now apply obj_set_same_value. }
  now repeat split.
Qed.

Lemma handleAddAttachment_effect_witness :
  created (snd (newAttachments sample_rnd 0 [sample_png; sample_pdf; sample_png]
                  (mkBrowser 0 [])))
  = 0 + imageCount [sample_png; sample_pdf; sample_png].
Proof.
  apply (@handleAddAttachment_effect Kfield [sample_png; sample_pdf; sample_png]
           sample_rnd initialApp
           (setAttachments
              (obj_set Kfield
                 (fst (newAttachments sample_rnd 0 [sample_png; sample_pdf; sample_png]
                         (mkBrowser 0 [])))
                 INITIAL_ATTACHMENTS) initialApp)
           (mkBrowser 0 []) _ eq_refl).
Defined.

Lemma NoDup_app_iff (A : Type) (l1 l2 : list A) :
  NoDup (l1 ++ l2) <-> NoDup l1 /\ NoDup l2 /\ forall x, In x l1 -> ~ In x l2.
Proof.
  induction l1 as [|a l1 IH]; simpl.
  - split; [intros H; repeat split; [constructor | assumption | tauto] | tauto].
  - split.
    + intros H. inversion H as [|? ? Ha Hn]; subst.
      apply IH in Hn as (N1 & N2 & D). rewrite in_app_iff in Ha.
      split; [constructor; tauto|]. split; [assumption|].
      intros x [<-|Hx]; [tauto | now apply D].
    + intros (N1 & N2 & D). inversion N1 as [|? ? Ha Hn]; subst.
      constructor.
      * rewrite in_app_iff. intros [H|H]; [tauto | now apply (D a); [left|]].
      * apply IH. repeat split; try assumption. intros x Hx. apply D. now right.
Qed.

Lemma handlesOf_filter (f : Attachment.t -> bool) (l : list Attachment.t) :
  NoDup (handlesOf l) ->
  NoDup (handlesOf (filter f l))
  /\ forall u, In u (handlesOf (filter f l)) -> In u (handlesOf l).
Proof.
  induction l as [|a l IH]; simpl; intros H; [split; [constructor | tauto]|].
  destruct (Attachment.previewUrl a) as [u|] eqn:E.
  - inversion H as [|? ? Hu Hn]; subst. destruct (IH Hn) as [I1 I2].
    destruct (f a); simpl; rewrite ?E.
    + split; [constructor; auto | intros v [<-|Hv]; [now left | right; auto]].
    + split; [assumption | intros v Hv; right; auto].
  - destruct (IH H) as [I1 I2]. destruct (f a); simpl; rewrite ?E; auto.
Qed.

Lemma handleAdd_shape (k : Key) (files : list File.t) (rnd : nat -> string)
    (s s' : AppState) (b b' : Browser) :
  handleAddAttachment k (Some files) rnd s b = Some (s', b') ->
  exists old new,
    obj_get k (attachments s) = Some old
    /\ attachments s' = obj_set k (old ++ new) (attachments s)
    /\ handlesOf new = seq (created b) (imageCount files).
Proof.
  unfold handleAddAttachment.
  pose proof (newAttachments_count rnd files 0 b) as (C1 & _).
  destruct (newAttachments rnd 0 files b) as [new b1].
  destruct (obj_get k (attachments s)) as [old|]; [|discriminate].
  intros H; injection H as <- _. exists old, new. now repeat split.
Qed.

(** X4.  In every state of the page, no two attachments of the store
    hold the same preview handle, and every handle held was handed out
    by [createObjectURL]. *)
Theorem preview_handles_distinct (w : World) :
  reachable w ->
  NoDup (handlesOf (allAttachments (attachments (app w))))
  /\ forall u, In u (handlesOf (allAttachments (attachments (app w)))) ->
               u < created (browser w).
Proof.
  intros R.
  assert (B : forall v, reachable v ->
              forall u, In u (handlesOf (allAttachments (attachments (app v)))) ->
                        u < created (browser v)).
  { intros v Rv u Hu. destruct (storeInv_reachable Rv) as (_ & _ & H).
    apply handlesOf_In in Hu as (att & H1 & H2). specialize (H att H1).
    unfold handleOk in H. rewrite H2 in H. tauto. }
  split; [|now apply B].
  induction R as [key|w w' e R IH S]; [constructor|].
  specialize (B w R).
  destruct (@step_store _ _ _ S) as [A C|A C|k files rnd s' A C|k id s' A C D].
  - now rewrite A.
  - rewrite A. constructor.
  - destruct (handleAdd_shape _ _ _ _ _ A) as (old & new & G1 & E & G3).
    destruct (@obj_set_split k old _ G1) as (pre & post & P1 & P2).
    rewrite C, E, P2. rewrite P1 in IH, B.
    rewrite !handlesOf_app in *. rewrite G3.
    apply NoDup_app_iff in IH as (N1 & N2 & D1).
    apply NoDup_app_iff in N2 as (N2 & N3 & D2).
    assert (F : forall x, In x (seq (created (browser w)) (imageCount files)) ->
                          created (browser w) <= x)
      by (intros x Hx; apply in_seq in Hx; lia).
    assert (L : forall x, In x (handlesOf pre ++ handlesOf old ++ handlesOf post)%list ->
                          ~ In x (seq (created (browser w)) (imageCount files))).
    { intros x Hx Hs. apply F in Hs. apply B in Hx. lia. }
    apply NoDup_app_iff. split; [assumption|]. split.
    + apply NoDup_app_iff. split; [|split; [assumption|]].
      * apply NoDup_app_iff. split; [assumption|]. split; [apply seq_NoDup|].
        intros x Hx. apply L. rewrite !in_app_iff. tauto.
      * intros x Hx Hy. apply in_app_iff in Hx as [Hx|Hx]; [now apply (D2 x)|].
        apply (L x); [rewrite !in_app_iff; tauto | assumption].
    + intros x Hx Hy. rewrite !in_app_iff in Hy.
      destruct Hy as [[Hy|Hy]|Hy].
      * apply (D1 x Hx). rewrite in_app_iff. tauto.
      * apply (L x); [rewrite !in_app_iff; tauto | assumption].
      * apply (D1 x Hx). rewrite in_app_iff. tauto.
  - unfold handleRemoveAttachment in A.
    destruct (obj_get k (attachments (app w))) as [old|] eqn:G; [|discriminate].
    injection A as <-. simpl in C.
    destruct (@obj_set_split k old _ G) as (pre & post & P1 & P2).
    rewrite C, P2. rewrite P1 in IH. rewrite !handlesOf_app in *.
    apply NoDup_app_iff in IH as (N1 & N2 & D1).
    apply NoDup_app_iff in N2 as (N2 & N3 & D2).
    destruct (handlesOf_filter (fun att => negb (Attachment.id att =? id)) old N2)
      as [F1 F2].
    apply NoDup_app_iff. split; [assumption|]. split.
    + apply NoDup_app_iff. split; [assumption|]. split; [assumption|].
      intros x Hx. apply D2. auto.
    + intros x Hx Hy. apply (D1 x Hx). rewrite in_app_iff in *.
      destruct Hy; [left; auto | tauto].
Qed.

Lemma preview_handles_distinct_witness :
  NoDup (handlesOf (allAttachments (attachments (app sample_store))))
  /\ forall u, In u (handlesOf (allAttachments (attachments (app sample_store)))) ->
               u < created (browser sample_store).
Proof.
  apply (@preview_handles_distinct sample_store (worldAfter_reachable _)).
Defined.

(* ================================================================= *)
(** ** More invariants of the page *)

(** X5.  In every state of the page the attachments object has its
    five properties, in the order of [INITIAL_ATTACHMENTS], so that
    [prev[field]] is never [undefined]: for every category, file list
    and id, the state updaters of [handleAddAttachment] and of
    [handleRemoveAttachment] run without a TypeError. *)
Theorem store_updaters_never_throw (w : World) :
  reachable w ->
  Object_keys (attachments (app w))
  = [Kfield; KhandSpecimen; Kmicroscopy; Kgeochemistry; KremoteSensing]
  /\ (forall k, exists l, obj_get k (attachments (app w)) = Some l)
  /\ (forall k files rnd,
        exists s' b',
          handleAddAttachment k files rnd (app w) (browser w) = Some (s', b'))
  /\ (forall k id, exists s', handleRemoveAttachment k id (app w) = Some s').
Proof.
  intros R. destruct (storeInv_reachable R) as (K & _).
  split; [exact K|]. split; [intros k; now apply obj_get_keys|]. split.
  - intros k files rnd. unfold handleAddAttachment.
    destruct files as [fl|]; [|eauto].
    destruct (newAttachments rnd 0 fl (browser w)) as [new b1].
    destruct (@obj_get_keys k _ K) as [old ->]. eauto.
  - intros k id. unfold handleRemoveAttachment.
    destruct (@obj_get_keys k _ K) as [old ->]. eauto.
Qed.

Lemma store_updaters_never_throw_witness :
  Object_keys (attachments (app sample_removed))
  = [Kfield; KhandSpecimen; Kmicroscopy; Kgeochemistry; KremoteSensing]
  /\ (forall k, exists l, obj_get k (attachments (app sample_removed)) = Some l)
  /\ (forall k files rnd,
        exists s' b',
          handleAddAttachment k files rnd (app sample_removed) (browser sample_removed)
          = Some (s', b'))
  /\ (forall k id,
        exists s', handleRemoveAttachment k id (app sample_removed) = Some s').
Proof.
  apply (@store_updaters_never_throw sample_removed (worldAfter_reachable _)).
Defined.

Lemma handleAdd_cells (k : Key) (files : option (list File.t)) (rnd : nat -> string)
    (s s' : AppState) (b b' : Browser) :
  handleAddAttachment k files rnd s b = Some (s', b') ->
  loading s' = loading s /\ result s' = result s /\ inputs s' = inputs s
  /\ language s' = language s.
Proof.
  unfold handleAddAttachment. destruct files as [fl|].
  - destruct (newAttachments rnd 0 fl b). destruct (obj_get k (attachments s));
      [|discriminate]. intros H; injection H as <- _. now repeat split.
  - intros H; injection H as <- _. now repeat split.
Qed.

Lemma handleRemove_cells (k : Key) (id : string) (s s' : AppState) :
  handleRemoveAttachment k id s = Some s' ->
  loading s' = loading s /\ result s' = result s /\ inputs s' = inputs s
  /\ language s' = language s.
Proof.
  unfold handleRemoveAttachment. destruct (obj_get k (attachments s)); [|discriminate].
  intros H; injection H as <-. now repeat split.
Qed.

Lemma step_apiKey (w w' : World) (e : Event) :
  step w e = Some w' -> apiKey w' = apiKey w.
Proof.
  intros H. destruct e; step_cases H; try reflexivity;
    first [apply runAnalysis_store | apply resumeRead_store | apply resumeBackend_store].
Qed.

(** X6.  Without an API key the page never contacts the backend: in
    every state no request has been sent, no call of [runAnalysis] is
    suspended, loading is off and the result is empty; a call of
    [runAnalysis] raises one alert and leaves the state of the page as
    it is (the tab does not even switch to the results). *)
Theorem no_key_no_request (w : World) :
  reachable w ->
  apiKey w = false ->
  calls w = []
  /\ tasks w = []
  /\ loading (app w) = false
  /\ result (app w) = ""
  /\ forall m,
       app (runAnalysis m w) = app w
       /\ alerts (runAnalysis m w) = S (alerts w)
       /\ calls (runAnalysis m w) = []
       /\ tasks (runAnalysis m w) = [].
Proof.
  intros R K.
  assert (I : calls w = [] /\ tasks w = [] /\ loading (app w) = false
              /\ result (app w) = "").
  { induction R as [key|w w' e R IH St]; [now repeat split|].
    pose proof (@step_apiKey _ _ _ St) as A. rewrite K in A. symmetry in A.
    destruct (IH A) as (C & T & L & Q).
    assert (Run : forall m, runAnalysis m w = mkWorld (app w) (browser w) (apiKey w)
                              (S (alerts w)) (tasks w) (nextTask w) (calls w)).
    { intros m. unfold runAnalysis. now rewrite A. }
    assert (Rd : forall i, resumeRead i w = w).
    { intros i. unfold resumeRead. now rewrite T. }
    assert (Bk : forall i o, resumeBackend i o w = w).
    { intros i o. unfold resumeBackend. now rewrite T. }
    destruct e; unfold step, onTab in St;
      repeat match type of St with
             | context [if ?c then _ else _] => destruct c eqn:?
             | context [match nth_error ?l ?i with _ => _ end] =>
                 destruct (nth_error l i)
             end;
      try (injection St as <-; rewrite ?Run, ?Rd, ?Bk; now repeat split).
    - destruct (handleAddAttachment _ _ _ _ _) as [[s' b']|] eqn:H; [|discriminate].
      injection St as <-. apply handleAdd_cells in H as (H1 & H2 & _).
      simpl. rewrite H1, H2. now repeat split.
    - destruct (handleRemoveAttachment _ _ _) as [s'|] eqn:H; [|discriminate].
      injection St as <-. apply handleRemove_cells in H as (H1 & H2 & _).
      simpl. rewrite H1, H2. now repeat split. }
  destruct I as (C & T & L & Q). repeat split; try assumption;
    unfold runAnalysis; rewrite K; simpl; first [reflexivity | assumption].
Qed.

Lemma sample_nokey_reachable : reachable sample_nokey.
Proof.
  unfold sample_nokey.
  destruct (exec (initialWorld false) _) eqn:E.
  - eapply exec_reachable; [apply reachable_initial | exact E].
  - apply reachable_initial.
Qed.

Lemma no_key_no_request_witness :
  calls sample_nokey = []
  /\ tasks sample_nokey = []
  /\ loading (app sample_nokey) = false
  /\ result (app sample_nokey) = ""
  /\ forall m,
       app (runAnalysis m sample_nokey) = app sample_nokey
       /\ alerts (runAnalysis m sample_nokey) = S (alerts sample_nokey)
       /\ calls (runAnalysis m sample_nokey) = []
       /\ tasks (runAnalysis m sample_nokey) = [].
Proof.
  apply (@no_key_no_request sample_nokey sample_nokey_reachable eq_refl).
Defined.

(** X7.  Loading never stays on by itself: in every state of the page,
    if loading is on then some call of [runAnalysis] is still
    suspended, so once the last call has settled the flag is off. *)
Theorem loading_needs_a_call (w : World) :
  reachable w ->
  loading (app w) = true -> tasks w <> [].
Proof.
  intros R. induction R as [key|w w' e R IH St]; [discriminate|].
  assert (Run : forall m, loading (app (runAnalysis m w)) = true ->
                          tasks (runAnalysis m w) <> []).
  { intros m. unfold runAnalysis. destruct (apiKey w); simpl; [|exact IH].
    rewrite suspend_tasks. intros _ E. now apply app_eq_nil in E as [_ E]. }
  assert (Rd : forall i, loading (app (resumeRead i w)) = true ->
                         tasks (resumeRead i w) <> []).
  { intros i. unfold resumeRead.
    destruct (findTask i (tasks w)) as [t|]; [|exact IH].
    destruct (t_pending t); [exact IH|].
    destruct (fileToGenerativePart _); [|discriminate].
    rewrite suspend_tasks. intros _ E. now apply app_eq_nil in E as [_ E]. }
  assert (Bk : forall i o, loading (app (resumeBackend i o w)) = true ->
                           tasks (resumeBackend i o w) <> []).
  { intros i o. unfold resumeBackend.
    destruct (findTask i (tasks w)) as [t|]; [|exact IH].
    destruct (t_pending t); [|exact IH].
    destruct o; discriminate. }
  destruct e; unfold step, onTab in St;
    repeat match type of St with
           | context [if ?c then _ else _] => destruct c eqn:?
           | context [match nth_error ?l ?i with _ => _ end] =>
               destruct (nth_error l i)
           end;
    try (injection St as <-;
         first [exact IH | intros _; now apply IH | apply Run | apply Rd | apply Bk]).
  - destruct (handleAddAttachment _ _ _ _ _) as [[s' b']|] eqn:H; [|discriminate].
    injection St as <-. apply handleAdd_cells in H as (H1 & _).
    simpl. now rewrite H1.
  - destruct (handleRemoveAttachment _ _ _) as [s'|] eqn:H; [|discriminate].
    injection St as <-. apply handleRemove_cells in H as (H1 & _).
    simpl. now rewrite H1.
Qed.

Lemma loading_needs_a_call_witness : tasks sample_loading <> [].
Proof.
  apply (@loading_needs_a_call sample_loading (worldAfter_reachable _) eq_refl).
Defined.

(* ================================================================= *)
(** ** More on calls of [runAnalysis] *)

Lemma NoDup_tid_filter (i : nat) (ts : list Task) :
  NoDup (map tid ts) ->
  NoDup (map tid (filter (fun x => negb (tid x =? i)%nat) ts)).
Proof.
  intros H. induction ts as [|t ts IH]; simpl; [constructor|].
  inversion H as [|? ? Ha Hn]; subst.
  destruct (negb (tid t =? i)%nat); simpl; [|auto]. constructor; [|auto].
  intros Hin. apply Ha. apply in_map_iff in Hin as (x & E & Hx).
  apply filter_In in Hx as [Hx _]. apply in_map_iff. eauto.
Qed.

Lemma sent_fst (t : Task) :
  map fst (sent t) = [] \/ (t_pending t = [] /\ map fst (sent t) = [tid t]).
Proof. unfold sent. destruct (t_pending t); simpl; auto. Qed.

Lemma NoDup_snoc (A : Type) (l : list A) (a : A) :
  NoDup l -> ~ In a l -> NoDup (l ++ [a]).
Proof.
  intros N H. apply NoDup_app_iff. split; [assumption|].
  split; [constructor; [tauto | constructor]|].
  intros x Hx [<-|[]]. contradiction.
Qed.

(** X8.  Every call of [runAnalysis] sends at most one request, and
    the calls that are suspended are pairwise distinct: in every state
    of the page the log of [generateContent] holds no two requests of
    the same call, and no call is suspended twice. *)
Theorem one_request_per_call (w : World) :
  reachable w ->
  NoDup (map fst (calls w)) /\ NoDup (map tid (tasks w)).
Proof.
  intros R. induction R as [key|w w' e R [IC IT] St]; [split; constructor|].
  destruct (taskInv_reachable R) as (I1 & I2 & I3).
  destruct (@step_async _ _ _ St)
    as [T C N|t Ht N T C|t att rest part Ht P E t' N T C|i N T C];
    rewrite T, C.
  - now split.
  - rewrite !map_app. split.
    + destruct (sent_fst t) as [->|[_ ->]]; [now rewrite app_nil_r|].
      apply NoDup_snoc; [assumption|]. intros Hin.
      apply in_map_iff in Hin as ([i r] & Ei & Hin). simpl in Ei. subst i.
      apply I2 in Hin. lia.
    + simpl. apply NoDup_snoc; [assumption|]. intros Hin.
      apply in_map_iff in Hin as (x & Ex & Hin). apply I1 in Hin. lia.
  - rewrite !map_app. split.
    + destruct (sent_fst t') as [->|[_ ->]]; [now rewrite app_nil_r|].
      apply NoDup_snoc; [assumption|]. intros Hin.
      apply in_map_iff in Hin as ([i r] & Ei & Hin). simpl in Ei. subst i.
      apply (I3 t r); [assumption | now rewrite P | assumption].
    + simpl. apply NoDup_snoc; [now apply NoDup_tid_filter|]. intros Hin.
      apply in_map_iff in Hin as (x & Ex & Hin).
      apply filter_In in Hin as [_ Hin]. rewrite Ex, Nat.eqb_refl in Hin.
      discriminate.
  - split; [assumption | now apply NoDup_tid_filter].
Qed.

Lemma one_request_per_call_witness :
  NoDup (map fst (calls sample_loading)) /\ NoDup (map tid (tasks sample_loading)).
Proof.
  apply (@one_request_per_call sample_loading (worldAfter_reachable _)).
Defined.

Lemma sent_request (t : Task) (i : nat) (r : Request) :
  In (i, r) (sent t) -> i = tid t /\ r = requestOf t.
Proof.
  unfold sent. destruct (t_pending t); simpl; [|tauto].
  intros [H|[]]. injection H as <- <-. now split.
Qed.

(** The language of a call and the settings of its request do not
    change while the page goes on. *)
Lemma settings_step (i : nat) (l : Language) (w w' : World) (e : Event) :
  (i < nextTask w
   /\ (forall t, In t (tasks w) -> tid t = i -> t_language t = l)
   /\ (forall r, In (i, r) (calls w) ->
         r = mkRequest modelId (parts r)
               match l with en => systemInstructionEn | ur => systemInstructionUr end 4)) ->
  step w e = Some w' ->
  i < nextTask w'
  /\ (forall t, In t (tasks w') -> tid t = i -> t_language t = l)
  /\ (forall r, In (i, r) (calls w') ->
        r = mkRequest modelId (parts r)
              match l with en => systemInstructionEn | ur => systemInstructionUr end 4).
Proof.
  intros (B1 & B2 & B3) St.
  destruct (@step_async _ _ _ St)
    as [T C N|t Ht N T C|t att rest part Ht P E t' N T C|j N T C];
    rewrite ?T, ?C, ?N.
  - now repeat split.
  - repeat split; [lia | |].
    + intros x Hx Hi. apply in_app_iff in Hx as [Hx|[<-|[]]]; [auto | lia].
    + intros r Hr. apply in_app_iff in Hr as [Hr|Hr]; [auto|].
      apply sent_request in Hr as [Hr _]. lia.
  - repeat split; [assumption | |].
    + intros x Hx Hi. apply in_app_iff in Hx as [Hx|[<-|[]]].
      * apply filter_In in Hx as [Hx _]. auto.
      * simpl in *. auto.
    + intros r Hr. apply in_app_iff in Hr as [Hr|Hr]; [auto|].
      apply sent_request in Hr as [Hi ->]. simpl in Hi.
      unfold requestOf. simpl. now rewrite (B2 t Ht (eq_sym Hi)).
  - repeat split; [assumption | |assumption].
    intros x Hx Hi. apply filter_In in Hx as [Hx _]. auto.
Qed.

(** X9.  The language of a call of [runAnalysis] is the one of the page
    at the moment of the call: whatever happens afterwards (the
    language button included), the call keeps that language for its
    error message, and its request names the model
    gemini-3-pro-preview, the temperature 0.4 and the system
    instruction of that language. *)
Theorem request_settings (w : World) (m : option string) :
  reachable w ->
  apiKey w = true ->
  forall evs w',
    exec (runAnalysis m w) evs = Some w' ->
    (forall t, In t (tasks w') -> tid t = nextTask w ->
               t_language t = language (app w))
    /\ (forall r, In (nextTask w, r) (calls w') ->
          model r = "gemini-3-pro-preview"
          /\ temperatureTenths r = 4
          /\ systemInstruction r =
               match language (app w) with
               | en => systemInstructionEn
               | ur => systemInstructionUr
               end).
Proof.
  intros R K evs.
  destruct (taskInv_reachable R) as (I1 & I2 & _).
  set (i := nextTask w). set (l := language (app w)).
  assert (B0 : i < nextTask (runAnalysis m w)
    /\ (forall t, In t (tasks (runAnalysis m w)) -> tid t = i -> t_language t = l)
    /\ (forall r, In (i, r) (calls (runAnalysis m w)) ->
          r = mkRequest modelId (parts r)
                match l with en => systemInstructionEn | ur => systemInstructionUr end 4)).
  { unfold runAnalysis. replace (negb (apiKey w)) with false by (now rewrite K).
    rewrite suspend_nextTask, suspend_tasks, suspend_calls. simpl.
    split; [unfold i; lia|]. split.
    - intros t Ht Hi. apply in_app_iff in Ht as [Ht|[<-|[]]]; [|reflexivity].
      apply I1 in Ht. unfold i in Hi. lia.
    - intros r Hr. apply in_app_iff in Hr as [Hr|Hr].
      + apply I2 in Hr. unfold i in Hr. lia.
      + apply sent_request in Hr as [_ ->]. reflexivity. }
  generalize dependent (runAnalysis m w).
  induction evs as [|e evs IH]; simpl; intros v B0 w' X.
  - injection X as <-. destruct B0 as (_ & B2 & B3).
    split; [exact B2|]. intros r Hr. rewrite (B3 r Hr). now repeat split.
  - destruct (step v e) as [v1|] eqn:St; [|discriminate].
    apply (IH v1); [|exact X]. eapply settings_step; eauto.
Qed.

Lemma request_settings_witness :
  (forall t,
     In t (tasks (worldAfter [LanguageClick; AnalyzeClick; LanguageClick])) ->
     tid t = 0 -> t_language t = ur)
  /\ (forall r,
        In (0, r) (calls (worldAfter [LanguageClick; AnalyzeClick; LanguageClick])) ->
        model r = "gemini-3-pro-preview"
        /\ temperatureTenths r = 4
        /\ systemInstruction r = systemInstructionUr).
Proof.
  exact (@request_settings (worldAfter [LanguageClick]) None
           (worldAfter_reachable _) eq_refl [LanguageClick]
           (worldAfter [LanguageClick; AnalyzeClick; LanguageClick]) eq_refl).
Defined.

Lemma exec_app (a b : list Event) :
  forall w, exec w (a ++ b) =
            match exec w a with Some w1 => exec w1 b | None => None end.
Proof.
  induction a as [|e a IH]; simpl; intros w; [reflexivity|].
  destruct (step w e); [apply IH | reflexivity].
Qed.

(** The ends of the reads alone take a suspended call whose files can
    all be read to the point where it awaits the backend, and leave
    the cells of the page alone. *)
Lemma reads_then_backend (pending : list Attachment.t) :
  forall (t : Task) (v : World) (ps : list Part.t),
    t_pending t = pending ->
    encodeAll pending = Some ps ->
    findTask (tid t) (tasks v) = None ->
    exists v' t',
      exec (suspend t v) (repeat (ReadEnd (tid t)) (List.length pending)) = Some v'
      /\ app v' = app v
      /\ findTask (tid t) (tasks v') = Some t'
      /\ t_pending t' = []
      /\ t_language t' = t_language t.
Proof.
  induction pending as [|att rest IH]; intros t v ps P E F; simpl.
  - exists (suspend t v), t. split; [reflexivity|].
    split; [apply suspend_app|].
    rewrite suspend_tasks. split; [now apply findTask_last|]. now split.
  - simpl in E.
    destruct (fileToGenerativePart _) as [part|] eqn:G; [|discriminate].
    destruct (encodeAll rest) as [qs|] eqn:Q; [|discriminate].
    unfold resumeRead.
    rewrite suspend_tasks, (@findTask_last (tid t) (tasks v) t F eq_refl), P, G.
    set (t1 := mkTask (tid t) (t_language t) (t_parts t ++ [part]) rest).
    destruct (IH t1 (dropTask (tid t) (suspend t v)) qs eq_refl eq_refl)
      as (v' & t' & X & A & F' & P' & L').
    { apply findTask_filter. }
    exists v', t'. split; [exact X|]. split.
    + rewrite A. simpl. apply suspend_app.
    + now repeat split.
Qed.

Lemma encodeAll_some (atts : list Attachment.t) :
  (forall att, In att atts -> fileToGenerativePart (Attachment.file att) <> None) ->
  exists ps, encodeAll atts = Some ps.
Proof.
  induction atts as [|att atts IH]; simpl; intros H; [now exists []|].
  destruct (fileToGenerativePart (Attachment.file att)) as [part|] eqn:E.
  - destruct IH as [ps ->]; [intros x Hx; apply H; now right|]. eauto.
  - exfalso. apply (H att); [now left | exact E].
Qed.

(** X10.  A submission that meets no obstacle ends well.  From any
    state of the page with a key, if every attachment of the store can
    be read, then the call of [runAnalysis], the ends of its reads and
    the settling of its backend call leave loading off, the results tab
    active, the texts and attachments as they were, and as result the
    text of the response when it is not empty, or the error message of
    the language of the call when the backend call is rejected. *)
Theorem submission_round_trip (w : World) (m : option string) (o : BackendOutcome) :
  reachable w ->
  apiKey w = true ->
  (forall att, In att (allAttachments (attachments (app w))) ->
               fileToGenerativePart (Attachment.file att) <> None) ->
  exists w',
    exec (runAnalysis m w)
      (repeat (ReadEnd (nextTask w))
         (List.length (allAttachments (attachments (app w))))
       ++ [BackendEnd (nextTask w) o]) = Some w'
    /\ loading (app w') = false
    /\ activeTab (app w') = TabResults
    /\ inputs (app w') = inputs (app w)
    /\ attachments (app w') = attachments (app w)
    /\ findTask (nextTask w) (tasks w') = None
    /\ (forall answer, o = Responded (Some answer) -> answer <> "" ->
                       result (app w') = answer)
    /\ (o = Rejected -> result (app w') = errorMessage (language (app w))).
Proof.
  intros R K Readable.
  destruct (encodeAll_some _ Readable) as [ps E].
  destruct (taskInv_reachable R) as (I1 & _).
  set (prompt := mainPromptText (language (app w)) (inputs (app w)) (activeTab (app w)) m).
  set (t0 := mkTask (nextTask w) (language (app w)) [Part.text prompt]
               (allAttachments (attachments (app w)))).
  set (v0 := mkWorld (setResult "" (setActiveTab TabResults (setLoading true (app w))))
               (browser w) (apiKey w) (alerts w) (tasks w) (S (nextTask w)) (calls w)).
  assert (Run : runAnalysis m w = suspend t0 v0).
  { unfold runAnalysis. now replace (negb (apiKey w)) with false by (now rewrite K). }
  destruct (@reads_then_backend _ t0 v0 ps eq_refl E)
    as (v' & t' & X & A & F & P & L).
  { apply findTask_none. intros t Ht. apply I1 in Ht. simpl. lia. }
  simpl in X, F, L.
  exists (resumeBackend (nextTask w) o v').
  rewrite Run, exec_app, X. split; [reflexivity|].
  unfold resumeBackend. rewrite F, P.
  assert (D : findTask (nextTask w) (tasks (dropTask (nextTask w) v')) = None)
    by apply findTask_filter.
  destruct o as [|[answer|]]; unfold failTask; simpl; rewrite ?A; simpl.
  - repeat split; try assumption; try discriminate.
    + rewrite (proj2 (findTask_In _ _ F)). exact D.
    + intros _. now rewrite L.
  - repeat split; try assumption; try discriminate.
    intros a Ha Hn. injection Ha as ->. destruct a; [contradiction | reflexivity].
  - repeat split; try assumption; discriminate.
Qed.

Lemma submission_round_trip_witness :
  exists w',
    exec (runAnalysis None sample_store)
      (repeat (ReadEnd 0) 2 ++ [BackendEnd 0 (Responded (Some "Skarn, 60%"))]) = Some w'
    /\ result (app w') = "Skarn, 60%".
Proof.
  destruct (@submission_round_trip sample_store None (Responded (Some "Skarn, 60%"))
              (worldAfter_reachable _) eq_refl)
    as (w' & X & _ & _ & _ & _ & _ & Ans & _).
  - intros att [<-|[<-|[]]]; discriminate.
  - exists w'. split; [exact X|]. apply Ans; [reflexivity | discriminate].
Defined.

(* ================================================================= *)
(** ** More on the prompt, the encoder and the filter *)

Lemma includes_app (pre q post : string) : includes (pre ++ q ++ post) q = true.
Proof. apply includes_iff. now exists pre, post. Qed.

Lemma includes_trans (a b c : string) :
  includes a b = true -> includes b c = true -> includes a c = true.
Proof.
  rewrite !includes_iff. intros (p1 & q1 & ->) (p2 & q2 & ->).
  exists (p1 ++ p2), (q2 ++ q1). now rewrite !append_assoc.
Qed.

(** X11.  Whatever the argument of [runAnalysis], the prompt is a
    heading followed by the input summary.  The heading names the
    module when the argument is a non-empty string and is the full
    analysis heading when the argument is missing or empty.  The
    summary, and so the prompt, has for each of the five categories the
    line made of its label, a colon and its text, or N/A when the text
    is empty. *)
Theorem prompt_carries_inputs (language : Language) (texts : DataInputs)
    (activeTab : Tab) (specificModule : option string) :
  mainPromptText language texts activeTab specificModule
  = (if truthy specificModule
     then "Run specific module analysis: "
          ++ match specificModule with Some m => m | None => "" end ++ "." ++ nl
     else "Perform a full Economic Geology Analysis based on the provided multi-scale data."
          ++ nl)
    ++ inputSummary (LABELS language) texts
  /\ forall k,
       let line :=
         summaryLabel k (LABELS language) ++ ": "
         ++ (if getInput k texts =? "" then "N/A" else getInput k texts) ++ nl in
       includes (inputSummary (LABELS language) texts) line = true
       /\ includes (mainPromptText language texts activeTab specificModule) line = true.
Proof.
  assert (E : mainPromptText language texts activeTab specificModule
    = (if truthy specificModule
       then "Run specific module analysis: "
            ++ match specificModule with Some m => m | None => "" end ++ "." ++ nl
       else "Perform a full Economic Geology Analysis based on the provided multi-scale data."
            ++ nl)
      ++ inputSummary (LABELS language) texts).
  { unfold mainPromptText. destruct (truthy specificModule) eqn:T.
    - now rewrite !append_assoc.
    - destruct (Tab_eqb activeTab TabHeatmap && isGeneratePythonCode specificModule) eqn:G.
      + apply andb_true_iff in G as [_ G].
        apply isGeneratePythonCode_truthy in G. congruence.
      + now rewrite !append_assoc. }
  split; [exact E|].
  intros k line.
  assert (O : forall s, or_else s "N/A" = if s =? "" then "N/A" else s)
    by (intros [|c s]; reflexivity).
  assert (I : includes (inputSummary (LABELS language) texts) line = true).
  { unfold line, inputSummary. rewrite <- O.
    set (t := LABELS language).
    destruct k; simpl summaryLabel; simpl getInput; apply includes_iff.
    - exists (nl ++ "--- INPUT DATA ---" ++ nl). eexists.
      rewrite !append_assoc. reflexivity.
    - exists (nl ++ "--- INPUT DATA ---" ++ nl
              ++ Labels.field t ++ ": " ++ or_else (field texts) "N/A" ++ nl).
      eexists. rewrite !append_assoc. reflexivity.
    - exists (nl ++ "--- INPUT DATA ---" ++ nl
              ++ Labels.field t ++ ": " ++ or_else (field texts) "N/A" ++ nl
              ++ Labels.handSpecimen t ++ ": " ++ or_else (handSpecimen texts) "N/A" ++ nl).
      eexists. rewrite !append_assoc. reflexivity.
    - exists (nl ++ "--- INPUT DATA ---" ++ nl
              ++ Labels.field t ++ ": " ++ or_else (field texts) "N/A" ++ nl
              ++ Labels.handSpecimen t ++ ": " ++ or_else (handSpecimen texts) "N/A" ++ nl
              ++ Labels.microscopy t ++ ": " ++ or_else (microscopy texts) "N/A" ++ nl).
      eexists. rewrite !append_assoc. reflexivity.
    - exists (nl ++ "--- INPUT DATA ---" ++ nl
              ++ Labels.field t ++ ": " ++ or_else (field texts) "N/A" ++ nl
              ++ Labels.handSpecimen t ++ ": " ++ or_else (handSpecimen texts) "N/A" ++ nl
              ++ Labels.microscopy t ++ ": " ++ or_else (microscopy texts) "N/A" ++ nl
              ++ Labels.geochem t ++ ": " ++ or_else (geochemistry texts) "N/A" ++ nl).
      exists "". rewrite !append_assoc, ?append_nil_r. reflexivity. }
  split; [exact I|].
  rewrite E. eapply includes_trans; [|exact I].
  apply includes_iff. eexists. exists "". now rewrite append_nil_r.
Qed.

Lemma includes_char_cons (sep c : ascii) (s : string) :
  c <> sep ->
  includes (String c s) (String sep "") = includes s (String sep "").
Proof.
  intros N. cbn [includes]. simpl prefix.
  destruct (ascii_dec sep c) as [E|E]; [congruence | reflexivity].
Qed.

Lemma split_acc_nonempty (sep : ascii) (s : string) :
  forall acc, 1 <= List.length (split_acc sep acc s).
Proof.
  induction s as [|c s IH]; intros acc; simpl; [lia|].
  destruct (Ascii.eqb c sep); simpl; [lia | apply IH].
Qed.

Lemma split_acc_two (sep : ascii) (s : string) :
  forall acc,
    includes s (String sep "") = true -> 2 <= List.length (split_acc sep acc s).
Proof.
  induction s as [|c s IH]; intros acc H; [discriminate|]. simpl.
  destruct (Ascii.eqb_spec c sep) as [E|E]; simpl.
  - pose proof (split_acc_nonempty sep s ""). lia.
  - apply IH. now rewrite includes_char_cons in H.
Qed.

(** X12.  [fileToGenerativePart] fails exactly when the one read it
    starts fails: the text read for a file taken as text, the data URL
    read for any other file; what the other kind of read would give
    plays no part.  For a file read as a data URL, the data of the part
    are missing ([undefined]) exactly when the URL has no comma. *)
Theorem fileToGenerativePart_failure (file : File.t) :
  let textual :=
    startsWith (File.type file) "text/"
    || endsWith (File.name file) ".csv"
    || endsWith (File.name file) ".json"
    || endsWith (File.name file) ".md" in
  (fileToGenerativePart file = None <->
   (if textual then File.readAsText file else File.readAsDataURL file) = None)
  /\ (forall url,
        textual = false ->
        File.readAsDataURL file = Some url ->
        (fileToGenerativePart file = Some (Part.inlineData None (File.type file))
         <-> includes url "," = false)).
Proof.
  unfold fileToGenerativePart; cbv zeta.
  destruct (startsWith (File.type file) "text/"
            || endsWith (File.name file) ".csv"
            || endsWith (File.name file) ".json"
            || endsWith (File.name file) ".md").
  - split; [|discriminate].
    destruct (File.readAsText file); split; congruence.
  - split; [destruct (File.readAsDataURL file); split; congruence|].
    intros url _ ->. split.
    + intros H.
      assert (N : nth_error (split "," url) 1 = None) by congruence.
      destruct (includes url ",") eqn:I; [|reflexivity].
      pose proof (@split_acc_two "," url "" I) as L.
      apply nth_error_None in N. unfold split in N. lia.
    + intros I. unfold split. now rewrite split_acc_plain.
Qed.

Lemma matchesQuery_refines (q q' label : string) :
  includes (toLowerCase q') (toLowerCase q) = true ->
  matchesQuery q' label = true -> matchesQuery q label = true.
Proof. unfold matchesQuery. intros H M. eapply includes_trans; eauto. Qed.

Lemma length_pos_In (A : Type) (l : list A) :
  Nat.ltb 0 (List.length l) = true <-> exists x, In x l.
Proof.
  destruct l as [|a l]; simpl; split; try discriminate.
  - intros [x []].
  - intros _. exists a. now left.
  - reflexivity.
Qed.

(** X13.  A shorter query never hides what a longer one shows: if the
    query [q] occurs inside the query [q'] (letter case aside), then
    every entry of the sidebar that [q'] keeps is kept by [q], in each
    of the three groups, and if [q'] has any match so has [q]. *)
Theorem filter_refines (language : Language) (q q' : string) :
  includes (toLowerCase q') (toLowerCase q) = true ->
  (showDataInput language q' = true -> showDataInput language q = true)
  /\ (forall m, In m (filteredModules language q') -> In m (filteredModules language q))
  /\ (forall tool, In tool (filteredTools language q') -> In tool (filteredTools language q))
  /\ (hasAnyMatch language q' = true -> hasAnyMatch language q = true).
Proof.
  intros H.
  assert (D : showDataInput language q' = true -> showDataInput language q = true)
    by (apply matchesQuery_refines; exact H).
  assert (M : forall m, In m (filteredModules language q') ->
                        In m (filteredModules language q)).
  { intros m. unfold filteredModules. rewrite !filter_In.
    intros [H1 H2]. split; [assumption|]. eapply matchesQuery_refines; eauto. }
  assert (T : forall tool, In tool (filteredTools language q') ->
                           In tool (filteredTools language q)).
  { intros tool. unfold filteredTools. rewrite !filter_In.
    intros [H1 H2]. split; [assumption|]. eapply matchesQuery_refines; eauto. }
  repeat split; try assumption.
  unfold hasAnyMatch. rewrite !orb_true_iff, !length_pos_In.
  intros [[A|[m A]]|[tool A]]; eauto.
Qed.

Lemma filter_refines_witness :
  In (ModuleItem.mk "4. Geochemical Intelligence"
        "Detects elemental anomalies and pathfinder clusters from geochemical data.")
     (filteredModules en "geo").
Proof.
  assert (E : includes (toLowerCase "Geochem") (toLowerCase "geo") = true)
    by (vm_compute; reflexivity).
  destruct (@filter_refines en "geo" "Geochem" E) as (_ & M & _).
  apply M. vm_compute. left. reflexivity.
Defined.

(** X14.  Typing the label of an entry, in any letter case, keeps that
    entry: a query equal to the label of a module of the list up to
    case is matched by that module, and then there is a match. *)
Theorem label_query_keeps_entry (language : Language) (m : ModuleItem.t) (q : string) :
  In m (moduleList language) ->
  toLowerCase q = toLowerCase (ModuleItem.label m) ->
  In m (filteredModules language q) /\ hasAnyMatch language q = true.
Proof.
  intros H E.
  assert (I : In m (filteredModules language q)).
  { unfold filteredModules. apply filter_In. split; [assumption|].
    unfold matchesQuery. rewrite E. apply includes_iff. exists "", "".
    now rewrite append_nil_r. }
  split; [assumption|].
  unfold hasAnyMatch. rewrite !orb_true_iff, !length_pos_In. eauto.
Qed.

Lemma label_query_keeps_entry_witness :
  In (ModuleItem.mk "5. Spectral AI"
        "Uses spectral data to map alteration zones (clays, iron oxides).")
     (filteredModules en "5. SPECTRAL ai")
  /\ hasAnyMatch en "5. SPECTRAL ai" = true.
Proof.
  apply (@label_query_keeps_entry en _ "5. SPECTRAL ai").
  - do 4 right. left. reflexivity.
  - reflexivity.
Defined.

(* ================================================================= *)
(** ** The paste handler *)

Lemma pastedFiles_In (items : list ClipboardItem.t) (f : File.t) :
  In f (pastedFiles items) <->
  exists item,
    In item items
    /\ includes (ClipboardItem.type item) "image" = true
    /\ ClipboardItem.getAsFile item = Some f.
Proof.
  induction items as [|it items IH]; simpl.
  - split; [tauto | intros (item & [] & _)].
  - destruct (includes (ClipboardItem.type it) "image") eqn:I.
    + destruct (ClipboardItem.getAsFile it) as [blob|] eqn:G; simpl; rewrite IH; split.
      * intros [<-|(item & H1 & H2)]; [exists it | exists item]; tauto.
      * intros (item & [<-|H1] & H2 & H3); [left; congruence | right; eauto].
      * intros (item & H1 & H2). exists item. tauto.
      * intros (item & [<-|H1] & H2 & H3); [congruence | eauto].
    + rewrite IH. split.
      * intros (item & H1 & H2). exists item. tauto.
      * intros (item & [<-|H1] & H2 & H3); [congruence | eauto].
Qed.

(** X15.  A paste into the textarea of a category adds, after the
    attachments the category has, one attachment per clipboard item
    whose type contains the word image and that yields a file, in item
    order, and nothing for the other items; suspended calls and the
    backend log are not touched.  A paste without such an item leaves
    the whole state as it is. *)
Theorem paste_adds_images (k : Key) (items : list ClipboardItem.t) (rnd : nat -> string)
    (w : World) :
  reachable w ->
  activeTab (app w) = TabInputs ->
  exists w',
    paste k items rnd w = Some w'
    /\ map Attachment.file (attachmentsOf k (attachments (app w')))
       = (map Attachment.file (attachmentsOf k (attachments (app w)))
          ++ pastedFiles items)%list
    /\ (forall f,
          In f (pastedFiles items) <->
          exists item,
            In item items
            /\ includes (ClipboardItem.type item) "image" = true
            /\ ClipboardItem.getAsFile item = Some f)
    /\ (pastedFiles items = [] -> w' = w)
    /\ inputs (app w') = inputs (app w)
    /\ tasks w' = tasks w
    /\ calls w' = calls w.
Proof.
  intros R Tab.
  destruct (storeInv_reachable R) as (K & _).
  destruct (@obj_get_keys k _ K) as [old G].
  unfold paste, handlePaste; cbv zeta.
  destruct (Nat.ltb 0 (List.length (pastedFiles items))) eqn:L.
  - unfold step, onTab. rewrite Tab. simpl Tab_eqb. cbv iota.
    unfold handleAddAttachment.
    pose proof (newAttachments_files rnd (pastedFiles items) 0 (browser w)) as F.
    destruct (newAttachments rnd 0 (pastedFiles items) (browser w)) as [new b1].
    rewrite G. eexists. split; [reflexivity|]. simpl in F |- *.
    split.
    { unfold attachmentsOf. rewrite G.
      rewrite obj_get_set_same with (old := old) by exact G.
      now rewrite map_app, F. }
    split; [intros f; apply pastedFiles_In|].
    split; [intros E; rewrite E in L; discriminate|]. now repeat split.
  - assert (E : pastedFiles items = [])
      by (destruct (pastedFiles items); [reflexivity | discriminate]).
    exists w. split; [reflexivity|].
    split; [now rewrite E, app_nil_r|].
    split; [intros f; apply pastedFiles_In|]. now repeat split.
Qed.

Lemma paste_adds_images_witness :
  exists w',
    paste Kmicroscopy sample_clipboard sample_rnd sample_store = Some w'
    /\ map Attachment.file (attachmentsOf Kmicroscopy (attachments (app w')))
       = [sample_png].
Proof.
  destruct (@paste_adds_images Kmicroscopy sample_clipboard sample_rnd sample_store
              (worldAfter_reachable _) eq_refl)
    as (w' & P & F & _).
  exists w'. split; [exact P | exact F].
Defined.

(* ================================================================= *)
(** ** No cancellation *)

Lemma filter_keeps_other (i : nat) (t : Task) (ts : list Task) :
  In t ts -> tid t <> i -> In t (filter (fun x => negb (tid x =? i)%nat) ts).
Proof.
  intros H N. apply filter_In. split; [assumption|].
  now destruct (Nat.eqb_spec (tid t) i).
Qed.

Lemma kept_same (w v : World) (e : Event) :
  tasks v = tasks w -> calls v = calls w -> kept w v e.
Proof.
  intros T C. unfold kept. rewrite T, C. split; [intros t Ht; left; eauto|].
  exists []. now rewrite app_nil_r.
Qed.

Lemma kept_runAnalysis (w : World) (m : option string) (e : Event) :
  kept w (runAnalysis m w) e.
Proof.
  unfold runAnalysis. destruct (apiKey w); simpl; [|now apply kept_same].
  unfold kept. rewrite suspend_tasks, suspend_calls. simpl. split; [|eauto].
  intros t Ht. left. exists t. split; [|reflexivity].
  apply in_app_iff. now left.
Qed.

Lemma kept_resumeRead (w : World) (i : nat) : kept w (resumeRead i w) (ReadEnd i).
Proof.
  unfold resumeRead.
  destruct (findTask i (tasks w)) as [t0|] eqn:F; [|now apply kept_same].
  apply findTask_In in F as [F1 F2].
  destruct (t_pending t0) as [|att rest]; [now apply kept_same|].
  destruct (fileToGenerativePart _) as [part|]; unfold kept.
  - rewrite suspend_tasks, suspend_calls. simpl. split; [|eauto].
    intros t Ht. left. destruct (Nat.eq_dec (tid t) i) as [E|E].
    + eexists. split; [apply in_app_iff; right; left; reflexivity|].
      simpl. congruence.
    + exists t. split; [|reflexivity].
      apply in_app_iff. left. now apply filter_keeps_other.
  - unfold failTask. simpl. split; [|exists []; now rewrite app_nil_r].
    intros t Ht. destruct (Nat.eq_dec (tid t) i) as [E|E].
    + right. left. now rewrite E.
    + left. exists t. split; [|reflexivity].
      rewrite F2. now apply filter_keeps_other.
Qed.

Lemma kept_resumeBackend (w : World) (i : nat) (o : BackendOutcome) :
  kept w (resumeBackend i o w) (BackendEnd i o).
Proof.
  unfold resumeBackend.
  destruct (findTask i (tasks w)) as [t0|] eqn:F; [|now apply kept_same].
  apply findTask_In in F as [F1 F2].
  destruct (t_pending t0) as [|att rest]; [|now apply kept_same].
  assert (Drop : forall t, In t (tasks w) ->
    (exists t', In t' (filter (fun x => negb (tid x =? i)%nat) (tasks w))
                /\ tid t' = tid t)
    \/ BackendEnd i o = ReadEnd (tid t)
    \/ exists o', BackendEnd i o = BackendEnd (tid t) o').
  { intros t Ht. destruct (Nat.eq_dec (tid t) i) as [E|E].
    - right. right. exists o. now rewrite E.
    - left. exists t. split; [|reflexivity]. now apply filter_keeps_other. }
  destruct o; unfold kept, failTask; simpl; rewrite ?F2;
    (split; [exact Drop | exists []; now rewrite app_nil_r]).
Qed.

(** X16.  Nothing the user does cancels a submission.  After any
    event, a call of [runAnalysis] that was suspended is still
    suspended under its number unless the event is the end of a read or
    of the backend call of that very call, and every request that was
    sent is still in the log, at its place: the log only grows at its
    end. *)
Theorem no_cancellation (w w' : World) (e : Event) :
  step w e = Some w' ->
  (forall t, In t (tasks w) ->
     (exists t', In t' (tasks w') /\ tid t' = tid t)
     \/ e = ReadEnd (tid t)
     \/ exists o, e = BackendEnd (tid t) o)
  /\ exists more, calls w' = (calls w ++ more)%list.
Proof.
  intros St. change (kept w w' e).
  destruct e; step_cases St;
    first [ now apply kept_same | apply kept_runAnalysis
          | apply kept_resumeRead | apply kept_resumeBackend ].
Qed.

Lemma no_cancellation_witness :
  (forall t, In t (tasks sample_loading) ->
     (exists t', In t' (tasks (worldAfter [AnalyzeClick; DataInputClick; ClearClick]))
                 /\ tid t' = tid t)
     \/ ClearClick = ReadEnd (tid t)
     \/ exists o, ClearClick = BackendEnd (tid t) o)
  /\ exists more,
       calls (worldAfter [AnalyzeClick; DataInputClick; ClearClick])
       = (calls sample_loading ++ more)%list.
Proof.
  apply (@no_cancellation sample_loading
           (worldAfter [AnalyzeClick; DataInputClick; ClearClick]) ClearClick eq_refl).
Defined.

Lemma runAnalysis_loading (m : option string) (w : World) :
  loading (app w) = true -> loading (app (runAnalysis m w)) = true.
Proof.
  intros L. unfold runAnalysis. destruct (apiKey w); simpl; [|exact L].
  destruct (suspend_app
              (mkTask (nextTask w) (language (app w))
                 [Part.text (mainPromptText (language (app w)) (inputs (app w))
                                (activeTab (app w)) m)]
                 (allAttachments (attachments (app w))))
              (mkWorld (setResult "" (setActiveTab TabResults (setLoading true (app w))))
                 (browser w) true (alerts w) (tasks w) (S (nextTask w)) (calls w)))
    as [A _].
  now rewrite A.
Qed.

(** X17.  Loading is switched off only when a call of [runAnalysis]
    ends: if an event takes the page from loading to not loading, the
    event is the end of a read that failed, or the settling of the
    backend call, of a call that was suspended.  No click, edit or
    other action of the user switches it off. *)
Theorem loading_off_only_by_settle (w w' : World) (e : Event) :
  step w e = Some w' ->
  loading (app w) = true ->
  loading (app w') = false ->
  exists i t,
    findTask i (tasks w) = Some t
    /\ ((e = ReadEnd i
         /\ exists att rest,
              t_pending t = att :: rest
              /\ fileToGenerativePart (Attachment.file att) = None)
        \/ (t_pending t = [] /\ exists o, e = BackendEnd i o)).
Proof.
  intros St L L'.
  destruct e;
    try (exfalso; step_cases St;
         first [ rewrite runAnalysis_loading in L' by exact L; discriminate
               | simpl in L'; congruence ]).
  - (* FilesChange *)
    exfalso. unfold step, onTab in St.
    destruct (Tab_eqb _ _); [|injection St as <-; congruence].
    destruct (handleAddAttachment _ _ _ _ _) as [[s' b']|] eqn:H; [|discriminate].
    injection St as <-. apply handleAdd_cells in H as (H1 & _).
    simpl in L'. congruence.
  - (* RemoveClick *)
    exfalso. unfold step, onTab in St.
    destruct (Tab_eqb _ _); [|injection St as <-; congruence].
    destruct (handleRemoveAttachment _ _ _) as [s'|] eqn:H; [|discriminate].
    injection St as <-. apply handleRemove_cells in H as (H1 & _).
    simpl in L'. congruence.
  - (* AnalyzeClick: the button is disabled *)
    exfalso. unfold step, onTab in St.
    destruct (Tab_eqb _ _); [|injection St as <-; congruence].
    rewrite L in St. injection St as <-. congruence.
  - (* ReadEnd *)
    step_cases St. unfold resumeRead in L'.
    destruct (findTask i (tasks w)) as [t|] eqn:F; [|congruence].
    destruct (t_pending t) as [|att rest] eqn:P; [congruence|].
    destruct (fileToGenerativePart (Attachment.file att)) as [part|] eqn:E.
    + exfalso.
      destruct (suspend_app (mkTask (tid t) (t_language t) (t_parts t ++ [part]) rest)
                  (dropTask i w)) as [A _].
      rewrite A in L'. simpl in L'. congruence.
    + exists i, t. split; [exact F|]. left. split; [reflexivity|]. eauto.
  - (* BackendEnd *)
    step_cases St. unfold resumeBackend in L'.
    destruct (findTask i (tasks w)) as [t|] eqn:F; [|congruence].
    destruct (t_pending t) as [|att rest] eqn:P; [|congruence].
    exists i, t. split; [exact F|]. right. split; [exact P|]. eauto.
Qed.

Lemma loading_off_only_by_settle_witness :
  exists i t,
    findTask i (tasks sample_reading) = Some t
    /\ ((ReadEnd 0 = ReadEnd i
         /\ exists att rest,
              t_pending t = att :: rest
              /\ fileToGenerativePart (Attachment.file att) = None)
        \/ (t_pending t = [] /\ exists o, ReadEnd 0 = BackendEnd i o)).
Proof.
  apply (@loading_off_only_by_settle sample_reading
           (worldAfter [ TextChange Kfield "andesite host rock with quartz veining";
                         FilesChange Kfield (Some [sample_broken]) sample_rnd;
                         AnalyzeClick; ReadEnd 0 ])
           (ReadEnd 0) eq_refl eq_refl eq_refl).
Defined.
